(** * WebPageAI: context-budget enforcement and answer assembly

    A shallow embedding of [src/main.py]: the [/ask] handler
    [ask_question] and its helper [_enforce_site_data_limit].

    Python values are modelled as follows.
    - A [str] is the list of its code points ([pystr]); [len] is the
      length of that list.  [bytes] are lists of numbers below 256.
    - A [dict[str, str]] is an association list in insertion order with
      pairwise distinct keys ([pydict], [dict_wf]); dictionaries are
      objects: they live in a heap and are passed around by address.
    - Integers are unbounded ([Z]).
    - Code that can raise runs in a state-and-exception monad [M] over the
      world: the heap, the reference held in [app.state.site_data], and a
      log of the deletions performed and the requests sent to the LLM.
    - The module constants [MAX_TEXT_LENGTH] and [WEBSITE], the remote
      call [client.beta.chat.completions.parse] and the Unicode table
      behind [repr] are variables of the section [Program].
    Writes to standard output ([print]) are not part of the world. *)

From stdpp Require Import gmap strings list.
From Stdlib Require Import ZArith NArith Ascii Sorting.Sorted.

Local Open Scope Z_scope.

(** ** Strings *)

Abbreviation pystr := (list N).

(** ** Dictionaries *)

Abbreviation pydict := (list (list N * list N)).

Definition dict_wf (d : pydict) : Prop := NoDup (d.*1).

Definition len {A} (l : list A) : Z := Z.of_nat (length l).

(** A literal of the source, as a Python string. *)
Definition py (s : string) : pystr :=
  map N_of_ascii (String.list_ascii_of_string s).

(** ** [bytes.decode('utf-8')] (strict error handler) *)

Inductive exn :=
| UnicodeDecodeError
| KeyError (key : pystr)
| IndexError
| AttributeError
| HTTPException (status_code : Z) (detail : string)
| UpstreamError (what : string)
| DanglingReference.

Definition is_cont (b : N) : bool := ((128 <=? b) && (b <? 192))%N.

Fixpoint decode_utf8 (bs : list N) : exn + pystr :=
  match bs with
  | [] => inr []
  | b0 :: r0 =>
    if (b0 <? 128)%N then
      match decode_utf8 r0 with inr s => inr (b0 :: s) | inl e => inl e end
    else if ((194 <=? b0) && (b0 <? 224))%N then
      match r0 with
      | b1 :: r1 =>
        if is_cont b1 then
          match decode_utf8 r1 with
          | inr s => inr (((b0 - 192) * 64 + (b1 - 128))%N :: s)
          | inl e => inl e
          end
        else inl UnicodeDecodeError
      | _ => inl UnicodeDecodeError
      end
    else if ((224 <=? b0) && (b0 <? 240))%N then
      match r0 with
      | b1 :: b2 :: r2 =>
        let c := ((b0 - 224) * 4096 + (b1 - 128) * 64 + (b2 - 128))%N in
        if is_cont b1 && is_cont b2 && (2048 <=? c)%N
           && negb ((55296 <=? c) && (c <? 57344))%N then
          match decode_utf8 r2 with
          | inr s => inr (c :: s)
          | inl e => inl e
          end
        else inl UnicodeDecodeError
      | _ => inl UnicodeDecodeError
      end
    else if ((240 <=? b0) && (b0 <? 245))%N then
      match r0 with
      | b1 :: b2 :: b3 :: r3 =>
        let c := ((b0 - 240) * 262144 + (b1 - 128) * 4096
                  + (b2 - 128) * 64 + (b3 - 128))%N in
        if is_cont b1 && is_cont b2 && is_cont b3
           && (65536 <=? c)%N && (c <? 1114112)%N then
          match decode_utf8 r3 with
          | inr s => inr (c :: s)
          | inl e => inl e
          end
        else inl UnicodeDecodeError
      | _ => inl UnicodeDecodeError
      end
    else inl UnicodeDecodeError
  end.

(** ** [repr] of a string and [str] of a dictionary *)

Section Repr.

(** The Unicode database predicate behind [str.isprintable]; [repr]
    consults it for code points above ASCII only. *)
Variable Py_UNICODE_ISPRINTABLE : N -> bool.

Definition hexdigit (n : N) : N :=
  if (n <? 10)%N then (48 + n)%N else (87 + n)%N.

Fixpoint hex (width : nat) (n : N) : pystr :=
  match width with
  | O => []
  | S w => hex w (n / 16)%N ++ [hexdigit (n mod 16)%N]
  end.

Definition SQUOTE : N := 39.
Definition DQUOTE : N := 34.
Definition BACKSLASH : N := 92.

(** The quote [repr] chooses: a double quote when the string holds a
    single quote and no double quote, a single quote otherwise. *)
Definition repr_quote (s : pystr) : N :=
  if existsb (N.eqb SQUOTE) s && negb (existsb (N.eqb DQUOTE) s)
  then DQUOTE else SQUOTE.

Definition repr_char (quote ch : N) : pystr :=
  if ((ch =? quote) || (ch =? BACKSLASH))%N then [BACKSLASH; ch]
  else if (ch =? 9)%N then [BACKSLASH; 116%N]
  else if (ch =? 10)%N then [BACKSLASH; 110%N]
  else if (ch =? 13)%N then [BACKSLASH; 114%N]
  else if ((ch <? 32) || (ch =? 127))%N then BACKSLASH :: 120%N :: hex 2 ch
  else if (ch <? 127)%N then [ch]
  else if Py_UNICODE_ISPRINTABLE ch then [ch]
  else if (ch <? 256)%N then BACKSLASH :: 120%N :: hex 2 ch
  else if (ch <? 65536)%N then BACKSLASH :: 117%N :: hex 4 ch
  else BACKSLASH :: 85%N :: hex 8 ch.

Definition repr (s : pystr) : pystr :=
  let q := repr_quote s in
  q :: concat (map (repr_char q) s) ++ [q].

Definition repr_item (kv : pystr * pystr) : pystr :=
  repr (fst kv) ++ py ": " ++ repr (snd kv).

Fixpoint join (sep : pystr) (parts : list pystr) : pystr :=
  match parts with
  | [] => []
  | [p] => p
  | p :: ps => p ++ sep ++ join sep ps
  end.

(** [str(d)] for a dictionary of strings. *)
Definition dict_str (d : pydict) : pystr :=
  py "{" ++ join (py ", ") (map repr_item d) ++ py "}".

End Repr.

(** ** [sorted(items, key=lambda x: len(x[1]), reverse=True)]

    [sorted] is stable, also with [reverse=True]: elements that compare
    equal keep their original relative order.  Descending order and
    stability fix the result ([sorted_by_len_desc_unique] below), so an
    insertion sort stands for it. *)

Definition item_key (x : pystr * pystr) : Z := len (snd x).

Fixpoint insert_desc (x : pystr * pystr) (l : list (pystr * pystr)) :=
  match l with
  | [] => [x]
  | y :: l' =>
    if item_key x <? item_key y then y :: insert_desc x l'
    else x :: y :: l'
  end.

Fixpoint sorted_by_len_desc (l : list (pystr * pystr)) :=
  match l with
  | [] => []
  | x :: l' => insert_desc x (sorted_by_len_desc l')
  end.

(** ** The world: heap of dictionaries and event log *)

Definition addr := nat.

Record chat_message := ChatMessage { role : string; content : pystr }.

(** What a run does to the outside: deleting an entry of a dictionary
    object (with the value removed) and sending a request to the LLM. *)
Inductive event :=
| EvDel (a : addr) (url text : pystr)
| EvChat (model : string) (messages : list chat_message).

Record world := World {
  heap : gmap addr pydict;
  app_state_site_data : addr;
  log : list event
}.

Definition M (A : Type) : Type := world -> (exn + A) * world.

#[global] Instance M_ret : MRet M := fun A x w => (inr x, w).
#[global] Instance M_bind : MBind M := fun A B f m w =>
  match m w with
  | (inr x, w') => f x w'
  | (inl e, w') => (inl e, w')
  end.

Definition raise {A} (e : exn) : M A := fun w => (inl e, w).

Definition set_heap (h : gmap addr pydict) (w : world) : world :=
  World h (app_state_site_data w) (log w).

Definition emit (e : event) (w : world) : world :=
  World (heap w) (app_state_site_data w) (log w ++ [e]).

(** Reading [app.state.site_data]. *)
Definition get_app_state_site_data : M addr := fun w =>
  (inr (app_state_site_data w), w).

Definition deref (a : addr) : M pydict := fun w =>
  match heap w !! a with
  | Some d => (inr d, w)
  | None => (inl DanglingReference, w)
  end.

(** ** Dictionary operations *)

Fixpoint dict_get (k : pystr) (d : pydict) : option pystr :=
  match d with
  | [] => None
  | (k', v) :: d' => if decide (k' = k) then Some v else dict_get k d'
  end.

Fixpoint dict_remove (k : pystr) (d : pydict) : pydict :=
  match d with
  | [] => []
  | (k', v) :: d' =>
    if decide (k' = k) then d' else (k', v) :: dict_remove k d'
  end.

(** [d.copy()]: a new object with the same entries in the same order. *)
Definition dict_copy (a : addr) : M addr := fun w =>
  match heap w !! a with
  | Some d =>
    let a' := fresh (dom (heap w)) in
    (inr a', set_heap (<[a' := d]> (heap w)) w)
  | None => (inl DanglingReference, w)
  end.

(** [d.items()] and [d.keys()], as the sequences they iterate over. *)
Definition dict_items (a : addr) : M (list (pystr * pystr)) := deref a.

Definition dict_keys (a : addr) : M (list pystr) :=
  d ← deref a; mret (d.*1).

(** [del d[k]] *)
Definition dict_del (a : addr) (k : pystr) : M unit := fun w =>
  match heap w !! a with
  | Some d =>
    match dict_get k d with
    | Some v =>
      (inr tt, emit (EvDel a k v) (set_heap (<[a := dict_remove k d]> (heap w)) w))
    | None => (inl (KeyError k), w)
    end
  | None => (inl DanglingReference, w)
  end.

(** ** The LLM reply *)

Record ParsedChatCompletionMessage := Message {
  refusal : option pystr;
  msg_content : option pystr
}.

Record ChatCompletion := Completion {
  choices : list ParsedChatCompletionMessage;
  usage : option (gmap string Z)
}.

(** Truth value of an optional string: [None] and the empty string are
    false. *)
Definition truthy (o : option pystr) : bool :=
  match o with
  | Some (_ :: _) => true
  | _ => false
  end.

Record ask_response := Response {
  user_question : pystr;
  answer : option pystr;
  input_tokens : option Z;
  output_tokens : option Z;
  sources : list pystr
}.

(** ** Sample inputs *)

(** A table for the sample runs: the printable code points of Latin-1
    above ASCII, and nothing beyond Latin-1. *)
Definition isprintable_latin1 (c : N) : bool :=
  ((161 <=? c) && (c <? 256) && negb (c =? 173))%N.

Definition scenario_corpus : pydict :=
  [(py "a", replicate 100 120%N); (py "b", replicate 50 121%N)].

Definition scenario_world : world :=
  World {[ 0%nat := scenario_corpus ]} 0%nat [].

Definition big_corpus : pydict :=
  [(py "a", replicate (Z.to_nat 200000) 120%N); (py "b", py "y")].

Definition big_world : world := World {[ 0%nat := big_corpus ]} 0%nat [].

Definition ties_corpus : pydict :=
  [(py "a", py "xx"); (py "b", py "yyy"); (py "c", py "zz"); (py "d", py "www")].

Definition ties_world : world := World {[ 0%nat := ties_corpus ]} 0%nat [].

Definition llm_answers (model : string) (messages : list chat_message)
    : string + ChatCompletion :=
  inr (Completion [Message None (Some (py "ok"))]
         (Some {[ "prompt_tokens" := 7; "completion_tokens" := 3 ]})).

Definition llm_refuses (model : string) (messages : list chat_message)
    : string + ChatCompletion :=
  inr (Completion [Message (Some (py "no")) None] None).

Definition busy_world : world :=
  World {[ 0%nat := scenario_corpus; 5%nat := ties_corpus ]} 5%nat
    [EvDel 1%nat (py "a") (py "x")].

Definition scenario_response : ask_response :=
  Response (py "hi") (Some (py "ok")) (Some 7) (Some 3) [py "b"].

Definition long_urls_corpus : pydict :=
  [(py "https://example.org/a", py "x"); (py "https://example.org/b", py "y")].

Definition long_urls_world : world :=
  World {[ 0%nat := long_urls_corpus ]} 0%nat [].

Definition single_world : world :=
  World {[ 0%nat := [(py "a", replicate 100 120%N)] ]} 0%nat [].

Definition crawler_ok (site : option pystr) : exn + pydict :=
  inr scenario_corpus.

Definition llm_no_usage (model : string) (messages : list chat_message)
    : string + ChatCompletion :=
  inr (Completion [Message None (Some (py "ok"))] None).

(** ** The program *)

Section Program.

Variable Py_UNICODE_ISPRINTABLE : N -> bool.

(** Module constants.  The source sets [MAX_TEXT_LENGTH = 196_000]
    ([MAX_TEXT_LENGTH_source]) and reads [WEBSITE] from the environment
    ([None] when unset). *)
Variable MAX_TEXT_LENGTH : Z.
Variable WEBSITE : option pystr.

(** [client.beta.chat.completions.parse]: the reply of the remote model,
    or the exception the call raises. *)
Variable client_parse : string -> list chat_message -> string + ChatCompletion.

Definition str_dict (a : addr) : M pystr :=
  d ← deref a; mret (dict_str Py_UNICODE_ISPRINTABLE d).

Fixpoint evict_loop (site_data_with_data_limit : addr)
    (its : list (pystr * pystr)) (total_text_length : Z) : M Z :=
  match its with
  | [] => mret total_text_length
  | (url, text) :: rest =>
    if total_text_length <=? MAX_TEXT_LENGTH then mret total_text_length
    else
      _ ← dict_del site_data_with_data_limit url;
      evict_loop site_data_with_data_limit rest (total_text_length - len text)
  end.

Definition _enforce_site_data_limit (site_data : addr) : M addr :=
  site_data_with_data_limit ← dict_copy site_data;
  s ← str_dict site_data_with_data_limit;
  let total_text_length := len s in
  if MAX_TEXT_LENGTH <? total_text_length then
    its ← dict_items site_data_with_data_limit;
    _ ← evict_loop site_data_with_data_limit (sorted_by_len_desc its)
          total_text_length;
    mret site_data_with_data_limit
  else mret site_data_with_data_limit.

Definition str_option (o : option pystr) : pystr :=
  match o with
  | Some s => s
  | None => py "None"
  end.

Definition system_prompt : pystr :=
  py "You are an AI assistant trained to answer questions based on the information provided "
  ++ py "from the crawled website. You should answer as accurately as possible based solely on "
  ++ py "the content of the website data, without including any outside information. If the question "
  ++ py "cannot be answered based on the provided data, indicate that clearly.".

Definition user_prompt (site_data_for_open_ai question : pystr) : pystr :=
  py "I have the following site data available, which is about the website '"
  ++ str_option WEBSITE ++ py "'. "
  ++ py "Please read through the data and answer the following question: "
  ++ [10%N; 10%N]
  ++ py "Website data:" ++ [10%N; 10%N] ++ site_data_for_open_ai
  ++ [10%N; 10%N] ++ py "Question: " ++ question ++ [10%N]
  ++ py "Provide a clear and concise answer based on the information above.".

Definition chat_completions_parse (model : string)
    (messages : list chat_message) : M ChatCompletion := fun w =>
  (match client_parse model messages with
   | inr r => inr r
   | inl what => inl (UpstreamError what)
   end, emit (EvChat model messages) w).

Definition lift {A} (r : exn + A) : M A := fun w => (r, w).

Definition first_choice (r : ChatCompletion) : M ParsedChatCompletionMessage :=
  match choices r with
  | m :: _ => mret m
  | [] => raise IndexError
  end.

Definition usage_to_dict (r : ChatCompletion) : M (gmap string Z) :=
  match usage r with
  | Some u => mret u
  | None => raise AttributeError
  end.

Definition question_too_long : exn :=
  HTTPException 400 "Question exceeds maximum length of 500 characters".

Definition refused : exn :=
  HTTPException 400
    "The AI refused to answer the question based on the provided data.".

Definition ask_question (body : list N) : M ask_response :=
  question ← lift (decode_utf8 body);
  if 500 <? len question then raise question_too_long
  else
    site_data ← get_app_state_site_data;
    site_data_for_open_ai ← _enforce_site_data_limit site_data;
    s ← str_dict site_data_for_open_ai;
    response ← chat_completions_parse "gpt-4o-mini"
      [ChatMessage "system" system_prompt;
       ChatMessage "user" (user_prompt s question)];
    answer ← first_choice response;
    if truthy (refusal answer) then raise refused
    else
      usage ← usage_to_dict response;
      keys ← dict_keys site_data_for_open_ai;
      mret (Response question (msg_content answer)
              (usage !! "prompt_tokens") (usage !! "completion_tokens")
              keys).

(** A dictionary built by a callee: a new object. *)
Definition dict_new (d : pydict) : M addr := fun w =>
  let a := fresh (dom (heap w)) in
  (inr a, set_heap (<[a := d]> (heap w)) w).

Definition set_app_state_site_data (a : addr) : M unit := fun w =>
  (inr tt, World (heap w) a (log w)).

(** The startup part of [lifespan], up to its [yield].  [crawl_site] is
    the crawler of [src.crawler.crawler]: the mapping it builds for a
    site, or the exception it raises. *)
Definition lifespan (crawl_site : option pystr -> exn + pydict) : M unit :=
  site_data ← (d ← lift (crawl_site WEBSITE); dict_new d);
  set_app_state_site_data site_data.

(** [GET /source_info]: the object held in [app.state.site_data]. *)
Definition get_source : M addr := get_app_state_site_data.

Definition MAX_TEXT_LENGTH_source : Z := 196000.

(** ** Value-level description of the eviction loop

    What the loop of [_enforce_site_data_limit] deletes, as a function of
    the sorted items and the running total, and what is left of the
    dictionary afterwards. *)

Fixpoint evicted (limit : Z) (its : list (pystr * pystr)) (total : Z)
    : list (pystr * pystr) :=
  match its with
  | [] => []
  | (url, text) :: rest =>
    if total <=? limit then []
    else (url, text) :: evicted limit rest (total - len text)
  end.

Definition remove_all (ev : list (pystr * pystr)) (d : pydict) : pydict :=
  foldl (fun d e => dict_remove (fst e) d) d ev.

Definition sum_text (ev : list (pystr * pystr)) : Z :=
  foldr (fun e acc => len (snd e) + acc) 0 ev.

Definition del_events (a : addr) (ev : list (pystr * pystr)) : list event :=
  (fun e => EvDel a e.1 e.2) <$> ev.

(** The order [sorted] puts the items in: longer texts first. *)
Definition ge_key (x y : pystr * pystr) : Prop := item_key y <= item_key x.

(** What lines 54-69 return for a question, the keys of the dictionary
    sent, and the outcome of the LLM call. *)
Definition answer_of (question : pystr) (keys : list pystr)
    (reply : string + ChatCompletion) : exn + ask_response :=
  match reply with
  | inl what => inl (UpstreamError what)
  | inr response =>
    match choices response with
    | [] => inl IndexError
    | answer :: _ =>
      if truthy (refusal answer) then inl refused
      else
        match usage response with
        | None => inl AttributeError
        | Some usage =>
          inr (Response question (msg_content answer)
                 (usage !! "prompt_tokens") (usage !! "completion_tokens")
                 keys)
        end
    end
  end.

(** The size metric of the enforcer: [len(str(d))]. *)
Definition serialized_size (d : pydict) : Z :=
  len (dict_str Py_UNICODE_ISPRINTABLE d).

Definition evictions (d : pydict) : list (pystr * pystr) :=
  if MAX_TEXT_LENGTH <? serialized_size d
  then evicted MAX_TEXT_LENGTH (sorted_by_len_desc d) (serialized_size d)
  else [].

Definition trim (d : pydict) : pydict := remove_all (evictions d) d.

(** The request sent to the LLM when the dictionary sent is [sent]. *)
Definition ask_messages (sent : pydict) (question : pystr) : list chat_message :=
  [ChatMessage "system" system_prompt;
   ChatMessage "user"
     (user_prompt (dict_str Py_UNICODE_ISPRINTABLE sent) question)].

(** [w'] keeps what [w] had: every dictionary of [w] with its entries,
    and the reference in [app.state.site_data]. *)
Definition keeps (w w' : world) : Prop :=
  (forall b, is_Some (heap w !! b) -> heap w' !! b = heap w !! b)
  /\ app_state_site_data w' = app_state_site_data w.

(** The world after a sequence of [/ask] requests, whatever their
    outcomes. *)
Definition ask_many (bodies : list (list N)) (w : world) : world :=
  foldl (fun w body => (ask_question body w).2) w bodies.

(** * Verification *)

(** ** Size of the serialization *)

Lemma repr_char_nonempty q ch :
  (1 <= length (repr_char Py_UNICODE_ISPRINTABLE q ch))%nat.
Proof.
  unfold repr_char.
  repeat (match goal with |- context [if ?b then _ else _] => destruct b end);
    simpl; lia.
Qed.

Lemma concat_repr_char_length q s :
  (length s <= length (concat (map (repr_char Py_UNICODE_ISPRINTABLE q) s)))%nat.
Proof.
  induction s as [|ch s IH]; simpl; [lia|].
  rewrite length_app. pose proof (repr_char_nonempty q ch). lia.
Qed.

Lemma repr_length s :
  (length s + 2 <= length (repr Py_UNICODE_ISPRINTABLE s))%nat.
Proof.
  unfold repr. simpl. rewrite length_app. simpl.
  pose proof (concat_repr_char_length (repr_quote s) s). lia.
Qed.

Lemma repr_item_length k v :
  (length v + 6 <= length (repr_item Py_UNICODE_ISPRINTABLE (k, v)))%nat.
Proof.
  unfold repr_item. cbn [fst snd]. rewrite !length_app.
  pose proof (repr_length k). pose proof (repr_length v).
  change (length (py ": ")) with 2%nat. lia.
Qed.

Lemma join_cons_length sep p ps :
  length (join sep (p :: ps)) =
  (length p + match ps with
              | [] => 0
              | _ => length sep + length (join sep ps)
              end)%nat.
Proof.
  destruct ps; simpl; [lia|]. rewrite !length_app. simpl. lia.
Qed.

Lemma join_remove_length sep k v d :
  dict_get k d = Some v ->
  (length (join sep (map (repr_item Py_UNICODE_ISPRINTABLE) (dict_remove k d)))
   + length v
   <= length (join sep (map (repr_item Py_UNICODE_ISPRINTABLE) d)))%nat.
Proof.
  induction d as [|[k' v'] d IH]; [discriminate|].
  cbn [dict_get dict_remove]. destruct (decide (k' = k)) as [->|Hne].
  - intros [= ->]. cbn [map]. rewrite join_cons_length.
    pose proof (repr_item_length k v).
    destruct (map (repr_item Py_UNICODE_ISPRINTABLE) d); [cbn [join length]|]; lia.
  - intros Hget. specialize (IH Hget). cbn [map].
    rewrite !join_cons_length.
    destruct d as [|x d]; [discriminate|].
    destruct (dict_remove k (x :: d)); cbn [map] in *; [|lia].
    change (length (join sep [])) with 0%nat in IH. lia.
Qed.

Lemma serialized_size_remove k v d :
  dict_get k d = Some v ->
  serialized_size (dict_remove k d)
  <= serialized_size d - len v.
Proof.
  intros Hget. pose proof (join_remove_length (py ", ") k v d Hget) as H.
  unfold serialized_size, dict_str, len. rewrite !length_app. lia.
Qed.

(** ** The sort is a stable descending sort *)

Lemma insert_desc_perm x l : insert_desc x l ≡ₚ x :: l.
Proof.
  induction l as [|y l IH]; simpl; [done|].
  destruct (item_key x <? item_key y); [|done].
  rewrite IH. apply Permutation_swap.
Qed.

Lemma sorted_by_len_desc_perm l : sorted_by_len_desc l ≡ₚ l.
Proof.
  induction l as [|x l IH]; simpl; [done|].
  by rewrite insert_desc_perm, IH.
Qed.

Lemma insert_desc_sorted x l :
  StronglySorted ge_key l -> StronglySorted ge_key (insert_desc x l).
Proof.
  induction 1 as [|y l Hl IH Hy]; simpl.
  - repeat constructor.
  - destruct (item_key x <? item_key y) eqn:E.
    + apply Z.ltb_lt in E. constructor; [done|].
      rewrite insert_desc_perm. constructor; [unfold ge_key; lia | done].
    + apply Z.ltb_ge in E. constructor; [by constructor|].
      constructor; [done|].
      eapply Forall_impl; [exact Hy|]. unfold ge_key. intros; lia.
Qed.

Lemma sorted_by_len_desc_sorted l : StronglySorted ge_key (sorted_by_len_desc l).
Proof.
  induction l; simpl; [constructor | by apply insert_desc_sorted].
Qed.

Lemma insert_desc_stable n x l :
  filter (fun y => item_key y = n) (insert_desc x l)
  = filter (fun y => item_key y = n) (x :: l).
Proof.
  induction l as [|y l IH]; simpl; [done|].
  destruct (item_key x <? item_key y) eqn:E; [|done].
  apply Z.ltb_lt in E. rewrite (filter_cons _ y), IH, !filter_cons.
  repeat case_decide; try done; lia.
Qed.

Lemma sorted_by_len_desc_stable n l :
  filter (fun y => item_key y = n) (sorted_by_len_desc l)
  = filter (fun y => item_key y = n) l.
Proof.
  induction l as [|x l IH]; simpl; [done|].
  by rewrite insert_desc_stable, !filter_cons, IH.
Qed.

(** Sortedness and stability determine the result: any implementation of
    [sorted] with these two properties returns [sorted_by_len_desc]. *)
Lemma stable_sorted_unique l1 : forall l2,
  StronglySorted ge_key l1 -> StronglySorted ge_key l2 ->
  (forall n, filter (fun y => item_key y = n) l1
             = filter (fun y => item_key y = n) l2) ->
  l1 = l2.
Proof.
  assert (Hhead : forall (x : pystr * pystr) t l,
    StronglySorted ge_key l ->
    (forall n, filter (fun y => item_key y = n) (x :: t)
               = filter (fun y => item_key y = n) l) ->
    exists y t', l = y :: t' /\ item_key x <= item_key y).
  { intros x t l Hs Hf. specialize (Hf (item_key x)).
    rewrite filter_cons_True in Hf by reflexivity.
    assert (x ∈ l) as Hx.
    { eapply (proj1 (list_elem_of_filter _ l x)). rewrite <- Hf. left. }
    destruct l as [|y t']; [by apply not_elem_of_nil in Hx|].
    exists y, t'. split; [done|].
    apply elem_of_cons in Hx as [->|Hx]; [lia|].
    apply StronglySorted_inv in Hs as [_ Hall].
    rewrite Forall_forall in Hall. by apply Hall. }
  induction l1 as [|x t1 IH]; intros l2 Hs1 Hs2 Hf.
  - destruct l2 as [|y t2]; [done|].
    specialize (Hf (item_key y)).
    rewrite filter_cons_True in Hf by reflexivity. discriminate.
  - destruct (Hhead x t1 l2 Hs2 Hf) as (y & t2 & -> & Hxy).
    destruct (Hhead y t2 (x :: t1) Hs1 (fun n => eq_sym (Hf n)))
      as (x' & t1' & [= <- <-] & Hyx).
    assert (x = y) as <-.
    { specialize (Hf (item_key x)).
      rewrite !filter_cons_True in Hf by lia. congruence. }
    f_equal. apply IH.
    + by apply StronglySorted_inv in Hs1 as [? _].
    + by apply StronglySorted_inv in Hs2 as [? _].
    + intros n. specialize (Hf n). rewrite !filter_cons in Hf.
      case_decide; congruence.
Qed.

Lemma sorted_by_len_desc_unique l l' :
  StronglySorted ge_key l' ->
  (forall n, filter (fun y => item_key y = n) l'
             = filter (fun y => item_key y = n) l) ->
  l' = sorted_by_len_desc l.
Proof.
  intros Hs Hf. apply stable_sorted_unique; [done| |].
  - apply sorted_by_len_desc_sorted.
  - intros n. by rewrite Hf, sorted_by_len_desc_stable.
Qed.

(** ** Dictionaries as association lists *)

Lemma dict_get_elem k v d : dict_wf d -> (k, v) ∈ d -> dict_get k d = Some v.
Proof.
  unfold dict_wf. induction d as [|[k' v'] d IH]; intros Hwf Hin.
  - by apply not_elem_of_nil in Hin.
  - cbn in Hwf. apply NoDup_cons in Hwf as [Hk Hwf]. simpl.
    apply elem_of_cons in Hin as [[= -> ->]|Hin].
    + by rewrite decide_True.
    + rewrite decide_False; [by apply IH|].
      intros ->. apply Hk. apply list_elem_of_fmap. by exists (k, v).
Qed.

Lemma dict_get_Some k v d : dict_get k d = Some v -> (k, v) ∈ d.
Proof.
  induction d as [|[k' v'] d IH]; simpl; [done|].
  case_decide; [intros [= ->]; subst; left | intros; right; auto].
Qed.

Lemma dict_wf_inj d x y : dict_wf d -> x ∈ d -> y ∈ d -> x.1 = y.1 -> x = y.
Proof.
  destruct x as [k v], y as [k' v']. simpl. intros Hwf Hx Hy <-.
  apply (dict_get_elem _ _ _ Hwf) in Hx, Hy. congruence.
Qed.

Lemma dict_get_remove_ne k k' d :
  k ≠ k' -> dict_get k (dict_remove k' d) = dict_get k d.
Proof.
  intros Hne. induction d as [|[k0 v0] d IH]; simpl; [done|].
  repeat (case_decide; simpl; subst); congruence.
Qed.

Lemma filter_fst_ne_id (k : pystr) (d : pydict) :
  k ∉ d.*1 -> filter (fun kv : pystr * pystr => kv.1 ≠ k) d = d.
Proof.
  induction d as [|[k' v'] d IH]; [done|].
  rewrite fmap_cons. intros [Hk Hd]%not_elem_of_cons.
  rewrite filter_cons_True by (simpl in *; congruence). by rewrite IH.
Qed.

Lemma dict_remove_filter k d :
  dict_wf d -> dict_remove k d = filter (fun kv : pystr * pystr => kv.1 ≠ k) d.
Proof.
  unfold dict_wf. induction d as [|[k' v'] d IH]; [done|].
  rewrite fmap_cons. intros [Hk Hwf]%NoDup_cons.
  cbn [dict_remove]. case_decide as Hd.
  - subst. rewrite filter_cons_False by (simpl; tauto).
    by rewrite filter_fst_ne_id.
  - rewrite filter_cons_True by done. by rewrite IH.
Qed.

Lemma dict_wf_filter (P : pystr * pystr -> Prop) `{!forall x, Decision (P x)} d :
  dict_wf d -> dict_wf (filter P d).
Proof.
  unfold dict_wf. intros Hwf. eapply sublist_NoDup; [exact Hwf|].
  apply fmap_sublist, sublist_filter.
Qed.

Lemma remove_all_filter ev : forall d,
  dict_wf d ->
  remove_all ev d = filter (fun kv : pystr * pystr => kv.1 ∉ ev.*1) d.
Proof.
  induction ev as [|e ev IH]; intros d Hwf.
  - simpl. induction d as [|x d IHd]; [done|].
    rewrite filter_cons_True by apply not_elem_of_nil.
    f_equal. apply IHd. unfold dict_wf in *. cbn in Hwf.
    by apply NoDup_cons in Hwf as [_ ?].
  - change (remove_all (e :: ev) d) with (remove_all ev (dict_remove e.1 d)).
    rewrite dict_remove_filter by done.
    rewrite IH by by apply dict_wf_filter.
    rewrite list_filter_filter. apply list_filter_iff.
    intros x. rewrite fmap_cons, not_elem_of_cons. tauto.
Qed.

Lemma remove_all_wf ev d : dict_wf d -> dict_wf (remove_all ev d).
Proof. intros Hwf. rewrite remove_all_filter by done. by apply dict_wf_filter. Qed.

(** Evicting whole entries: the evicted entries and the survivors are the
    entries of the input, each exactly once. *)
Lemma remove_all_partition ev d :
  dict_wf d -> NoDup (ev.*1) -> ev ⊆ d -> ev ++ remove_all ev d ≡ₚ d.
Proof.
  intros Hwf Hnd Hsub. rewrite remove_all_filter by done.
  etrans;
    [|apply (filter_app_complement (fun kv : pystr * pystr => kv.1 ∈ ev.*1) d)].
  apply Permutation_app; [|done].
  apply NoDup_Permutation.
  - by apply NoDup_fmap_1 in Hnd.
  - apply NoDup_filter. by apply NoDup_fmap_1 in Hwf.
  - intros x. rewrite list_elem_of_filter. split.
    + intros Hx. split; [by apply list_elem_of_fmap_2 | by apply Hsub].
    + intros [(y & Hxy & Hy)%list_elem_of_fmap Hx].
      rewrite (dict_wf_inj d x y); auto.
Qed.

Lemma remove_all_exhausted ev d :
  dict_wf d -> ev ≡ₚ d -> remove_all ev d = [].
Proof.
  intros Hwf Hp.
  assert (ev ++ remove_all ev d ≡ₚ d) as Hpart.
  { apply remove_all_partition; [done| |].
    - unfold dict_wf in Hwf. by rewrite Hp.
    - intros x. by rewrite Hp. }
  apply Permutation_length in Hpart, Hp. rewrite length_app in Hpart.
  apply nil_length_inv. lia.
Qed.

(** ** What the loop evicts *)

Lemma evicted_prefix limit its : forall total,
  evicted limit its total `prefix_of` its.
Proof.
  induction its as [|[url text] rest IH]; intros total; simpl.
  - done.
  - destruct (total <=? limit); [apply prefix_nil | apply prefix_cons, IH].
Qed.

(** The loop ends with the running total at or under the limit, or with
    every item deleted. *)
Lemma evicted_stop limit its : forall total,
  total - sum_text (evicted limit its total) <= limit
  \/ evicted limit its total = its.
Proof.
  induction its as [|[url text] rest IH]; intros total; simpl.
  - by right.
  - destruct (total <=? limit) eqn:E.
    + left. apply Z.leb_le in E. simpl. lia.
    + destruct (IH (total - len text)) as [H| ->]; [left|by right].
      simpl. lia.
Qed.

(** Every deletion happened with the running total over the limit. *)
Lemma evicted_over limit its : forall total p e q,
  evicted limit its total = p ++ e :: q ->
  limit < total - sum_text p.
Proof.
  induction its as [|[url text] rest IH]; intros total p e q; simpl.
  - by destruct p.
  - destruct (total <=? limit) eqn:E; [by destruct p|].
    apply Z.leb_gt in E. destruct p as [|e' p]; simpl.
    + intros _. lia.
    + intros [= <- H]. apply IH in H. simpl. lia.
Qed.

Lemma sum_text_app p q : sum_text (p ++ q) = sum_text p + sum_text q.
Proof. induction p; simpl; lia. Qed.

Lemma prefix_sorted (l1 l2 : list (pystr * pystr)) :
  l1 `prefix_of` l2 -> StronglySorted ge_key l2 -> StronglySorted ge_key l1.
Proof.
  intros [k ->]. induction l1 as [|x l1 IH]; simpl; [constructor|].
  intros [Hs Hall]%StronglySorted_inv. constructor; [by apply IH|].
  by apply Forall_app in Hall as [? _].
Qed.

Lemma prefix_filter (P : pystr * pystr -> Prop) `{!forall x, Decision (P x)}
    (l1 l2 : list (pystr * pystr)) :
  l1 `prefix_of` l2 -> filter P l1 `prefix_of` filter P l2.
Proof. intros [k ->]. rewrite filter_app. by eexists. Qed.

(** ** Runs of the program *)

Lemma world_eta w : World (heap w) (app_state_site_data w) (log w) = w.
Proof. by destruct w. Qed.

Lemma bind_run {A B} (m : M A) (f : A -> M B) w x w' :
  m w = (inr x, w') -> (m ≫= f) w = f x w'.
Proof. unfold mbind, M_bind. by intros ->. Qed.

Lemma bind_raise {A B} (m : M A) (f : A -> M B) w e w' :
  m w = (inl e, w') -> (m ≫= f) w = (inl e, w').
Proof. unfold mbind, M_bind. by intros ->. Qed.

Lemma deref_run a w d : heap w !! a = Some d -> deref a w = (inr d, w).
Proof. unfold deref. by intros ->. Qed.

Lemma str_dict_run a w d :
  heap w !! a = Some d ->
  str_dict a w
  = (inr (dict_str Py_UNICODE_ISPRINTABLE d), w).
Proof.
  intros Hd. unfold str_dict. by rewrite (bind_run _ _ w d w) by by apply deref_run.
Qed.

Lemma dict_keys_run a w d : heap w !! a = Some d -> dict_keys a w = (inr (d.*1), w).
Proof.
  intros Hd. unfold dict_keys. by rewrite (bind_run _ _ w d w) by by apply deref_run.
Qed.

Lemma dict_copy_run a w d :
  heap w !! a = Some d ->
  dict_copy a w
  = (inr (fresh (dom (heap w))),
     set_heap (<[fresh (dom (heap w)) := d]> (heap w)) w).
Proof. unfold dict_copy. by intros ->. Qed.

Lemma evict_loop_run a its : forall total w d,
  heap w !! a = Some d ->
  NoDup (its.*1) ->
  (forall k v, (k, v) ∈ its -> dict_get k d = Some v) ->
  evict_loop a its total w =
  (inr (total - sum_text (evicted MAX_TEXT_LENGTH its total)),
   World (<[a := remove_all (evicted MAX_TEXT_LENGTH its total) d]> (heap w))
     (app_state_site_data w)
     (log w ++ del_events a (evicted MAX_TEXT_LENGTH its total))).
Proof.
  assert (Hstop : forall total w d, heap w !! a = Some d ->
    (inr total, w) =
    (inr (A := exn) (total - sum_text []),
     World (<[a := remove_all [] d]> (heap w)) (app_state_site_data w)
       (log w ++ del_events a []))).
  { intros total w d Hd. simpl. rewrite insert_id by done.
    rewrite app_nil_r, world_eta. do 2 f_equal. lia. }
  induction its as [|[url text] rest IH]; intros total w d Hd Hnd Hget.
  - by apply Hstop.
  - cbn [evict_loop evicted]. destruct (total <=? MAX_TEXT_LENGTH).
    { by apply Hstop. }
    rewrite fmap_cons in Hnd. apply NoDup_cons in Hnd as [Hurl Hnd].
    unfold mbind, M_bind, dict_del.
    rewrite Hd, (Hget url text) by left.
    erewrite IH; [| |done|].
    + cbn [heap app_state_site_data log emit set_heap].
      rewrite insert_insert_eq, <- app_assoc. do 2 f_equal.
      simpl. lia.
    + cbn [heap emit set_heap]. apply lookup_insert_eq.
    + intros k v Hin. rewrite dict_get_remove_ne.
      * apply Hget. by right.
      * intros ->. apply Hurl. apply list_elem_of_fmap. by exists (url, v).
Qed.

Lemma enforce_run a w d :
  heap w !! a = Some d -> dict_wf d ->
  _enforce_site_data_limit a w =
  (inr (fresh (dom (heap w))),
   World (<[fresh (dom (heap w)) := trim d]> (heap w))
     (app_state_site_data w)
     (log w ++ del_events (fresh (dom (heap w))) (evictions d))).
Proof.
  intros Hd Hwf. unfold _enforce_site_data_limit, trim, evictions.
  set (a' := fresh (dom (heap w))).
  set (w1 := set_heap (<[a' := d]> (heap w)) w).
  assert (heap w1 !! a' = Some d) as Hd1 by apply lookup_insert_eq.
  rewrite (bind_run _ _ w a' w1) by by apply dict_copy_run.
  rewrite (bind_run _ _ w1 _ w1) by by apply str_dict_run.
  fold (serialized_size d). destruct (MAX_TEXT_LENGTH <? serialized_size d).
  - rewrite (bind_run _ _ w1 d w1) by by apply deref_run.
    assert (NoDup (sorted_by_len_desc d).*1) as Hnd.
    { unfold dict_wf in Hwf. by rewrite sorted_by_len_desc_perm. }
    assert (forall k v, (k, v) ∈ sorted_by_len_desc d -> dict_get k d = Some v)
      as Hget.
    { intros k v Hin. apply dict_get_elem; [done|].
      by rewrite sorted_by_len_desc_perm in Hin. }
    rewrite (bind_run _ _ _ _ _
               (evict_loop_run a' _ (serialized_size d) w1 d Hd1 Hnd Hget)).
    unfold mret, M_ret, w1. cbn [heap app_state_site_data log set_heap].
    by rewrite insert_insert_eq.
  - unfold mret, M_ret, w1, set_heap. simpl. by rewrite app_nil_r.
Qed.

Lemma fresh_addr_new (w : world) a :
  is_Some (heap w !! a) -> a ≠ fresh (dom (heap w)).
Proof.
  intros Ha%elem_of_dom ->. by apply is_fresh in Ha.
Qed.

Lemma evict_loop_frame a b its : forall total w,
  b ≠ a ->
  heap (evict_loop a its total w).2 !! b = heap w !! b
  /\ app_state_site_data (evict_loop a its total w).2
     = app_state_site_data w.
Proof.
  induction its as [|[url text] rest IH]; intros total w Hne; [done|].
  cbn [evict_loop]. destruct (total <=? MAX_TEXT_LENGTH); [done|].
  unfold mbind, M_bind, dict_del.
  destruct (heap w !! a) as [d|]; [|done].
  destruct (dict_get url d) as [v|]; [|done].
  destruct (IH (total - len text)
    (emit (EvDel a url v) (set_heap (<[a:=dict_remove url d]> (heap w)) w)) Hne)
    as [-> ->].
  cbn [heap app_state_site_data emit set_heap]. by rewrite lookup_insert_ne.
Qed.

Lemma enforce_frame a b w :
  is_Some (heap w !! b) ->
  heap (_enforce_site_data_limit a w).2 !! b = heap w !! b
  /\ app_state_site_data (_enforce_site_data_limit a w).2 = app_state_site_data w.
Proof.
  intros Hb%fresh_addr_new. unfold _enforce_site_data_limit.
  destruct (heap w !! a) as [d|] eqn:Hd; cycle 1.
  { rewrite (bind_raise _ _ w DanglingReference w); [done|].
    unfold dict_copy. by rewrite Hd. }
  set (a' := fresh (dom (heap w))) in *.
  set (w1 := set_heap (<[a' := d]> (heap w)) w).
  assert (heap w1 !! a' = Some d) as Hd1 by apply lookup_insert_eq.
  assert (heap w1 !! b = heap w !! b) as Hb1 by by apply lookup_insert_ne.
  rewrite (bind_run _ _ w a' w1) by by apply dict_copy_run.
  rewrite (bind_run _ _ w1 _ w1) by by apply str_dict_run.
  destruct (MAX_TEXT_LENGTH <? _); [|done].
  rewrite (bind_run _ _ w1 d w1) by by apply deref_run.
  destruct (evict_loop_frame a' b (sorted_by_len_desc d)
              (len (dict_str Py_UNICODE_ISPRINTABLE d)) w1 Hb) as [H1 H2].
  destruct (evict_loop a' (sorted_by_len_desc d)
              (len (dict_str Py_UNICODE_ISPRINTABLE d)) w1)
    as [[e|r] w2] eqn:El; cbn [snd] in H1, H2.
  - rewrite (bind_raise _ _ _ _ _ El). cbn [snd]. by rewrite H1, H2.
  - rewrite (bind_run _ _ _ _ _ El). cbn [snd mret M_ret]. by rewrite H1, H2.
Qed.

(** ** Properties of the budget enforcer *)

Lemma evictions_prefix d : evictions d `prefix_of` sorted_by_len_desc d.
Proof.
  unfold evictions. destruct (MAX_TEXT_LENGTH <? serialized_size d);
    [apply evicted_prefix | apply prefix_nil].
Qed.

Lemma evictions_sub d : evictions d ⊆ d.
Proof.
  intros x Hx. rewrite <- (sorted_by_len_desc_perm d).
  destruct (evictions_prefix d) as [k Hk]. rewrite Hk.
  apply elem_of_app. by left.
Qed.

Lemma evictions_keys d : dict_wf d -> NoDup (evictions d).*1.
Proof.
  unfold dict_wf. intros Hwf.
  assert (NoDup (sorted_by_len_desc d).*1) as Hnd
    by by rewrite sorted_by_len_desc_perm.
  destruct (evictions_prefix d) as [k Hk]. rewrite Hk, fmap_app in Hnd.
  by apply NoDup_app in Hnd as [? _].
Qed.

Lemma evictions_sorted d : StronglySorted ge_key (evictions d).
Proof.
  eapply prefix_sorted; [apply evictions_prefix|apply sorted_by_len_desc_sorted].
Qed.

(** The running total never falls below the size of what is left. *)
Lemma size_remove_all ev : forall d,
  NoDup (ev.*1) ->
  (forall k v, (k, v) ∈ ev -> dict_get k d = Some v) ->
  serialized_size (remove_all ev d) <= serialized_size d - sum_text ev.
Proof.
  induction ev as [|[k v] ev IH]; intros d Hnd Hget.
  - simpl. lia.
  - rewrite fmap_cons in Hnd. apply NoDup_cons in Hnd as [Hk Hnd].
    change (remove_all ((k, v) :: ev) d) with (remove_all ev (dict_remove k d)).
    etrans; [apply IH; [done|]|].
    + intros k' v' Hin. rewrite dict_get_remove_ne; [apply Hget; by right|].
      intros ->. apply Hk. apply list_elem_of_fmap. by exists (k, v').
    + pose proof (serialized_size_remove k v d
                    (Hget k v ltac:(left))).
      simpl. lia.
Qed.

Lemma trim_size d :
  dict_wf d -> serialized_size (trim d) <= serialized_size d - sum_text (evictions d).
Proof.
  intros Hwf. apply size_remove_all; [by apply evictions_keys|].
  intros k v Hin. apply dict_get_elem; [done|]. by apply evictions_sub.
Qed.

(** C1: a corpus whose serialized size is over the budget comes back with
    serialized size at most the budget, or empty. *)
Theorem enforce_over_budget_fits_or_empty w a d :
  heap w !! a = Some d -> dict_wf d ->
  MAX_TEXT_LENGTH < serialized_size d ->
  exists a' w' r,
    _enforce_site_data_limit a w = (inr a', w') /\ heap w' !! a' = Some r
    /\ (serialized_size r <= MAX_TEXT_LENGTH \/ r = []).
Proof.
  intros Hd Hwf Hover. eexists _, _, (trim d).
  split; [by apply enforce_run|]. split; [apply lookup_insert_eq|].
  pose proof (trim_size d Hwf) as Hsize.
  unfold trim, evictions in *. apply Z.ltb_lt in Hover. rewrite Hover in *.
  destruct (evicted_stop MAX_TEXT_LENGTH (sorted_by_len_desc d) (serialized_size d))
    as [Hstop|Hall].
  - left. lia.
  - right. rewrite Hall. apply remove_all_exhausted; [done|].
    apply sorted_by_len_desc_perm.
Qed.

(** C2: a corpus whose serialized size is within the budget comes back as
    a copy with the same entries in the same order; nothing is deleted. *)
Theorem enforce_within_budget_unchanged w a d :
  heap w !! a = Some d ->
  serialized_size d <= MAX_TEXT_LENGTH ->
  exists a' w',
    _enforce_site_data_limit a w = (inr a', w') /\ heap w' !! a' = Some d
    /\ a' ≠ a /\ log w' = log w.
Proof.
  intros Hd Hfit. eexists _, _. unfold _enforce_site_data_limit.
  rewrite (bind_run _ _ _ _ _ (dict_copy_run a w d Hd)).
  erewrite bind_run; cycle 1.
  { apply str_dict_run. apply lookup_insert_eq. }
  fold (serialized_size d). apply Z.ltb_ge in Hfit. rewrite Hfit.
  split; [reflexivity|]. split; [apply lookup_insert_eq|].
  split; [|done]. symmetry. by apply fresh_addr_new.
Qed.

(** C3: entries are deleted whole and one per step, longest text first and
    in non-increasing order of text length; a deletion happens only while
    the running total is over the budget, and the loop ends with the
    running total at or under the budget or with nothing left. *)
Theorem eviction_order w a d :
  heap w !! a = Some d -> dict_wf d ->
  exists a' w' ev r,
    _enforce_site_data_limit a w = (inr a', w') /\ heap w' !! a' = Some r
    /\ log w' = log w ++ del_events a' ev
    /\ ev ++ r ≡ₚ d
    /\ StronglySorted (fun x y => len y.2 <= len x.2) ev
    /\ (forall x y, head ev = Some x -> y ∈ d -> len y.2 <= len x.2)
    /\ (forall p e q, ev = p ++ e :: q -> MAX_TEXT_LENGTH < serialized_size d - sum_text p)
    /\ (serialized_size d - sum_text ev <= MAX_TEXT_LENGTH \/ r = []).
Proof.
  intros Hd Hwf. eexists _, _, (evictions d), (trim d).
  split; [by apply enforce_run|]. split; [apply lookup_insert_eq|].
  split; [done|]. split.
  { apply remove_all_partition;
      [done | by apply evictions_keys | apply evictions_sub]. }
  split; [apply evictions_sorted|]. split.
  { intros x y Hhead Hy. destruct (evictions_prefix d) as [k Hk].
    pose proof (sorted_by_len_desc_sorted d) as Hs.
    rewrite <- (sorted_by_len_desc_perm d), Hk in Hy. rewrite Hk in Hs.
    destruct (evictions d) as [|x' ev]; [done|]. injection Hhead as ->.
    apply StronglySorted_inv in Hs as [_ Hall].
    apply elem_of_cons in Hy as [->|Hy]; [lia|].
    rewrite Forall_forall in Hall. by apply Hall. }
  unfold trim, evictions. destruct (MAX_TEXT_LENGTH <? serialized_size d) eqn:E.
  - split; [intros p e q; apply evicted_over|].
    destruct (evicted_stop MAX_TEXT_LENGTH (sorted_by_len_desc d) (serialized_size d))
      as [Hstop|Hall]; [by left|right].
    rewrite Hall. apply remove_all_exhausted; [done|].
    apply sorted_by_len_desc_perm.
  - apply Z.ltb_ge in E. split; [by intros []|]. left. simpl. lia.
Qed.

(** C4: two runs on the same corpus, whatever the rest of the heap and
    wherever the corpus lives, return the same mapping and delete the same
    entries in the same order. *)
Theorem enforce_deterministic w1 w2 a1 a2 d :
  heap w1 !! a1 = Some d -> heap w2 !! a2 = Some d -> dict_wf d ->
  exists a1' a2' w1' w2' r ev,
    _enforce_site_data_limit a1 w1 = (inr a1', w1') /\ _enforce_site_data_limit a2 w2 = (inr a2', w2')
    /\ heap w1' !! a1' = Some r /\ heap w2' !! a2' = Some r
    /\ log w1' = log w1 ++ del_events a1' ev
    /\ log w2' = log w2 ++ del_events a2' ev.
Proof.
  intros H1 H2 Hwf. eexists _, _, _, _, (trim d), (evictions d).
  split; [by apply enforce_run|]. split; [by apply enforce_run|].
  split; [apply lookup_insert_eq|]. split; [apply lookup_insert_eq|]. done.
Qed.

(** C8: the enforcer leaves the input corpus, and every other dictionary
    that existed before the call, as it was; the mapping it returns is a
    different object. *)
Theorem enforce_input_unchanged w a :
  heap (_enforce_site_data_limit a w).2 !! a = heap w !! a
  /\ (forall b, is_Some (heap w !! b) ->
        heap (_enforce_site_data_limit a w).2 !! b = heap w !! b)
  /\ app_state_site_data (_enforce_site_data_limit a w).2 = app_state_site_data w
  /\ (forall a', (_enforce_site_data_limit a w).1 = inr a' -> a' ≠ a).
Proof.
  destruct (heap w !! a) as [d|] eqn:Hd.
  - destruct (enforce_frame a a w)
      as [Ha Hs]; [by rewrite Hd|].
    split; [by rewrite Ha|]. split; [|split; [done|]].
    + intros b Hb. by apply enforce_frame.
    + intros a'. unfold _enforce_site_data_limit.
      rewrite (bind_run _ _ _ _ _ (dict_copy_run a w d Hd)).
      erewrite bind_run; cycle 1.
      { apply str_dict_run. apply lookup_insert_eq. }
      assert (fresh (dom (heap w)) ≠ a) as Hne.
      { symmetry. apply fresh_addr_new. by rewrite Hd. }
      destruct (MAX_TEXT_LENGTH <? _).
      * erewrite bind_run; cycle 1.
        { apply deref_run. apply lookup_insert_eq. }
        unfold mbind, M_bind.
        destruct (evict_loop _ _ _ _) as [[e|t] w2]; simpl; congruence.
      * simpl. congruence.
  - assert (_enforce_site_data_limit a w = (inl DanglingReference, w)) as ->.
    { unfold _enforce_site_data_limit. apply bind_raise.
      unfold dict_copy. by rewrite Hd. }
    cbn [fst snd]. split; [done|]. split; [done|]. split; [done|].
    by intros a'.
Qed.

(** C9: among entries whose texts have the same length, deletion follows
    the insertion order of the input mapping: for every length [n], the
    deleted entries of that length are an initial segment of the input's
    entries of that length. *)
Theorem eviction_ties_in_insertion_order w a d n :
  heap w !! a = Some d -> dict_wf d ->
  exists a' w' ev,
    _enforce_site_data_limit a w = (inr a', w')
    /\ log w' = log w ++ del_events a' ev
    /\ filter (fun e => item_key e = n) ev
       `prefix_of` filter (fun e => item_key e = n) d.
Proof.
  intros Hd Hwf. eexists _, _, (evictions d).
  split; [by apply enforce_run|]. split; [done|].
  rewrite <- (sorted_by_len_desc_stable n d).
  apply prefix_filter, evictions_prefix.
Qed.

(** ** Properties of the [/ask] handler *)

Lemma ask_too_long body q w :
  decode_utf8 body = inr q -> 500 < len q ->
  ask_question body w = (inl question_too_long, w).
Proof.
  intros Hq Hlen. unfold ask_question.
  rewrite (bind_run _ _ w q w) by (unfold lift; by rewrite Hq).
  apply Z.ltb_lt in Hlen. by rewrite Hlen.
Qed.

Lemma ask_run body q w d :
  decode_utf8 body = inr q -> len q <= 500 ->
  heap w !! app_state_site_data w = Some d -> dict_wf d ->
  ask_question body w =
  (answer_of q (trim d).*1
     (client_parse "gpt-4o-mini" (ask_messages (trim d) q)),
   emit (EvChat "gpt-4o-mini" (ask_messages (trim d) q))
     (_enforce_site_data_limit (app_state_site_data w) w).2).
Proof.
  intros Hq Hlen Hd Hwf. unfold ask_question.
  rewrite (bind_run _ _ w q w) by (unfold lift; by rewrite Hq).
  apply Z.ltb_ge in Hlen. rewrite Hlen.
  rewrite (bind_run _ _ w (app_state_site_data w) w) by done.
  rewrite (enforce_run _ _ _ Hd Hwf).
  set (a' := fresh (dom (heap w))).
  set (w1 := World _ _ _).
  assert (heap w1 !! a' = Some (trim d)) as Hd1 by apply lookup_insert_eq.
  rewrite (bind_run _ _ w a' w1) by by apply enforce_run.
  rewrite (bind_run _ _ w1 _ w1) by by apply str_dict_run.
  fold (ask_messages (trim d) q).
  set (msgs := ask_messages (trim d) q).
  set (w2 := emit (EvChat "gpt-4o-mini" msgs) w1).
  assert (heap w2 !! a' = Some (trim d)) as Hd2 by apply Hd1.
  cbn [snd]. unfold answer_of.
  destruct (client_parse "gpt-4o-mini" msgs) as [what|response] eqn:Hreply.
  { apply bind_raise. unfold chat_completions_parse. by rewrite Hreply. }
  rewrite (bind_run _ _ w1 response w2)
    by (unfold chat_completions_parse; by rewrite Hreply).
  unfold first_choice, usage_to_dict.
  destruct (choices response) as [|answer rest]; [done|].
  rewrite (bind_run _ _ w2 answer w2) by done.
  destruct (truthy (refusal answer)); [done|].
  destruct (usage response) as [u|]; [|done].
  rewrite (bind_run _ _ w2 u w2) by done.
  by rewrite (bind_run _ _ w2 _ w2) by by apply dict_keys_run.
Qed.

Lemma answer_of_not_too_long q keys reply :
  answer_of q keys reply ≠ inl question_too_long.
Proof.
  unfold answer_of. destruct reply as [what|response]; [done|].
  destruct (choices response) as [|answer rest]; [done|].
  destruct (truthy (refusal answer)); [done|].
  by destruct (usage response).
Qed.

Lemma trim_keys_subseteq d : dict_wf d -> (trim d).*1 ⊆ d.*1.
Proof.
  intros Hwf k. unfold trim. rewrite remove_all_filter by done.
  intros (x & -> & [_ Hx]%list_elem_of_filter)%list_elem_of_fmap.
  by apply list_elem_of_fmap_2.
Qed.

(** C5: on success, [sources] is the key sequence of the dictionary the
    enforcer returned for this request, the one whose [str] went into the
    prompt sent to the LLM; its keys are among those of the corpus. *)
Theorem sources_are_keys_sent body w d resp w' :
  heap w !! app_state_site_data w = Some d -> dict_wf d ->
  ask_question body w = (inr resp, w') ->
  exists q a' w1 sent,
    decode_utf8 body = inr q
    /\ _enforce_site_data_limit (app_state_site_data w) w = (inr a', w1)
    /\ heap w1 !! a' = Some sent
    /\ log w' = log w1 ++ [EvChat "gpt-4o-mini" (ask_messages sent q)]
    /\ sources resp = sent.*1
    /\ sources resp ⊆ d.*1.
Proof.
  intros Hd Hwf Hrun.
  destruct (decode_utf8 body) as [e|q] eqn:Hq.
  { unfold ask_question in Hrun.
    rewrite (bind_raise _ _ w e w) in Hrun; [done|].
    unfold lift. by rewrite Hq. }
  destruct (Z.lt_ge_cases 500 (len q)) as [Hlong|Hlen].
  { by rewrite (ask_too_long _ _ _ Hq Hlong) in Hrun. }
  rewrite (ask_run _ _ _ _ Hq Hlen Hd Hwf) in Hrun.
  rewrite (enforce_run _ _ _ Hd Hwf) in Hrun.
  injection Hrun as Hans <-.
  eexists q, _, _, (trim d). split; [done|].
  split; [by apply enforce_run|]. split; [apply lookup_insert_eq|].
  split; [done|].
  assert (sources resp = (trim d).*1) as ->.
  { unfold answer_of in Hans.
    destruct (client_parse _ _) as [what|response]; [done|].
    destruct (choices response) as [|answer rest]; [done|].
    destruct (truthy (refusal answer)); [done|].
    destruct (usage response); [|done]. by injection Hans as <-. }
  split; [done | by apply trim_keys_subseteq].
Qed.

(** C6: for a question that passed validation and a reply of the LLM, the
    handler fails with the refusal error (status 400) exactly when the
    reply's refusal is true, and then returns no response. *)
Theorem refusal_iff_flag body q w d msg rest u :
  decode_utf8 body = inr q -> len q <= 500 ->
  heap w !! app_state_site_data w = Some d -> dict_wf d ->
  client_parse "gpt-4o-mini" (ask_messages (trim d) q)
    = inr (Completion (msg :: rest) u) ->
  ((ask_question body w).1 = inl refused <-> truthy (refusal msg) = true)
  /\ (truthy (refusal msg) = true -> forall r, (ask_question body w).1 ≠ inr r).
Proof.
  intros Hq Hlen Hd Hwf Hreply.
  rewrite (ask_run _ _ _ _ Hq Hlen Hd Hwf), Hreply. cbn [fst answer_of choices].
  destruct (truthy (refusal msg)).
  - split; [done|]. by intros _ r.
  - split; [|done]. split; [|done]. cbn [usage]. by destruct u.
Qed.

(** C7: the handler rejects a question with the too-long error (status
    400) exactly when its length exceeds 500; a rejected request does
    nothing else, an accepted one goes on to the LLM.  500 characters are
    accepted, 501 are rejected. *)
Theorem question_length_validation body q w d :
  decode_utf8 body = inr q ->
  heap w !! app_state_site_data w = Some d -> dict_wf d ->
  ((ask_question body w).1 = inl question_too_long <-> 500 < len q)
  /\ (500 < len q -> (ask_question body w).2 = w)
  /\ (len q <= 500 ->
        log (ask_question body w).2
        = log (_enforce_site_data_limit (app_state_site_data w) w).2
          ++ [EvChat "gpt-4o-mini" (ask_messages (trim d) q)])
  /\ (len q = 500 -> (ask_question body w).1 ≠ inl question_too_long)
  /\ (len q = 501 -> (ask_question body w).1 = inl question_too_long).
Proof.
  intros Hq Hd Hwf.
  assert (Hrej : 500 < len q -> ask_question body w = (inl question_too_long, w))
    by apply ask_too_long, Hq.
  assert (Hacc : len q <= 500 -> (ask_question body w).1 ≠ inl question_too_long).
  { intros Hlen. rewrite (ask_run _ _ _ _ Hq Hlen Hd Hwf).
    apply answer_of_not_too_long. }
  split; [|split; [|split; [|split]]].
  - split; [|by intros ->%Hrej].
    intros Hfail. destruct (Z.lt_ge_cases 500 (len q)) as [|Hlen]; [done|].
    by apply Hacc in Hlen.
  - by intros ->%Hrej.
  - intros Hlen. by rewrite (ask_run _ _ _ _ Hq Hlen Hd Hwf).
  - intros Hlen. apply Hacc. lia.
  - intros Hlen. rewrite Hrej; [done | lia].
Qed.

(** C10: the empty question passes the length check and goes through the
    whole pipeline: enforcer, request to the LLM, assembly of the reply.
    Only questions longer than 500 characters are rejected. *)
Theorem empty_question_accepted w d :
  heap w !! app_state_site_data w = Some d -> dict_wf d ->
  ask_question [] w
  = (answer_of [] (trim d).*1
       (client_parse "gpt-4o-mini" (ask_messages (trim d) [])),
     emit (EvChat "gpt-4o-mini" (ask_messages (trim d) []))
       (_enforce_site_data_limit (app_state_site_data w) w).2)
  /\ (ask_question [] w).1 ≠ inl question_too_long
  /\ (forall msg rest u,
        client_parse "gpt-4o-mini" (ask_messages (trim d) [])
          = inr (Completion (msg :: rest) (Some u)) ->
        truthy (refusal msg) = false ->
        exists r, (ask_question [] w).1 = inr r /\ user_question r = [])
  /\ (forall body q, decode_utf8 body = inr q ->
        (ask_question body w).1 = inl question_too_long -> 500 < len q).
Proof.
  intros Hd Hwf.
  assert (ask_question [] w = (answer_of [] (trim d).*1
       (client_parse "gpt-4o-mini" (ask_messages (trim d) [])),
     emit (EvChat "gpt-4o-mini" (ask_messages (trim d) []))
       (_enforce_site_data_limit (app_state_site_data w) w).2)) as Hrun.
  { by apply ask_run. }
  split; [done|]. rewrite Hrun. cbn [fst].
  split; [apply answer_of_not_too_long|]. split.
  - intros msg rest u -> Hflag. cbn [answer_of choices usage].
    rewrite Hflag. by eexists.
  - intros body q Hq Hfail.
    destruct (Z.lt_ge_cases 500 (len q)) as [|Hlen]; [done|].
    rewrite (ask_run _ _ _ _ Hq Hlen Hd Hwf) in Hfail.
    by apply answer_of_not_too_long in Hfail.
Qed.

(** ** Further properties of the budget enforcer *)

Lemma filter_sublist_impl (P Q : pystr * pystr -> Prop)
    `{!forall x, Decision (P x)} `{!forall x, Decision (Q x)} (l : pydict) :
  (forall x, P x -> Q x) -> filter P l `sublist_of` filter Q l.
Proof.
  intros HPQ. induction l as [|x l IH]; [done|].
  rewrite !filter_cons. destruct (decide (P x)) as [HP|HP].
  - rewrite decide_True by auto. by apply sublist_skip.
  - destruct (decide (Q x)); [by apply sublist_cons | done].
Qed.

Lemma trim_sublist d : dict_wf d -> trim d `sublist_of` d.
Proof.
  intros Hwf. unfold trim. rewrite remove_all_filter by done.
  apply sublist_filter.
Qed.

Lemma trim_fits_or_empty d :
  dict_wf d -> serialized_size (trim d) <= MAX_TEXT_LENGTH \/ trim d = [].
Proof.
  intros Hwf. pose proof (trim_size d Hwf) as Hsize.
  unfold trim, evictions in Hsize |- *.
  destruct (MAX_TEXT_LENGTH <? serialized_size d) eqn:E.
  - destruct (evicted_stop MAX_TEXT_LENGTH (sorted_by_len_desc d)
                (serialized_size d)) as [Hstop|Hall].
    + left. lia.
    + right. rewrite Hall. apply remove_all_exhausted; [done|].
      apply sorted_by_len_desc_perm.
  - apply Z.ltb_ge in E. left. by simpl.
Qed.

Lemma sum_text_nonneg ev : 0 <= sum_text ev.
Proof. induction ev; simpl; unfold len; lia. Qed.

Lemma sum_text_insert_desc x l :
  sum_text (insert_desc x l) = len x.2 + sum_text l.
Proof.
  induction l as [|y l IH]; simpl; [done|].
  destruct (item_key x <? item_key y); simpl; lia.
Qed.

Lemma sum_text_sorted l : sum_text (sorted_by_len_desc l) = sum_text l.
Proof.
  induction l as [|x l IH]; simpl; [done|].
  rewrite sum_text_insert_desc. lia.
Qed.

Lemma evicted_all limit its : forall total,
  limit < total - sum_text its -> evicted limit its total = its.
Proof.
  induction its as [|[url text] rest IH]; intros total Hover; [done|].
  cbn [evicted]. cbn [sum_text foldr snd] in Hover.
  fold (sum_text rest) in Hover.
  pose proof (sum_text_nonneg rest). assert (0 <= len text) by (unfold len; lia).
  rewrite (proj2 (Z.leb_gt total limit)) by lia.
  f_equal. apply IH. lia.
Qed.

(** Deleting an entry frees its text, its quotes, its key and the
    punctuation: at least six characters more than the text. *)
Lemma join_remove_length_entry k v d :
  dict_get k d = Some v ->
  (length (join (py ", ")
             (map (repr_item Py_UNICODE_ISPRINTABLE) (dict_remove k d)))
   + length v + 6
   <= length (join (py ", ") (map (repr_item Py_UNICODE_ISPRINTABLE) d)))%nat.
Proof.
  induction d as [|[k' v'] d IH]; [discriminate|].
  cbn [dict_get dict_remove]. destruct (decide (k' = k)) as [->|Hne].
  - intros [= ->]. cbn [map]. rewrite join_cons_length.
    pose proof (repr_item_length k v).
    destruct (map (repr_item Py_UNICODE_ISPRINTABLE) d); [cbn [join length]|]; lia.
  - intros Hget. specialize (IH Hget). cbn [map].
    rewrite !join_cons_length.
    destruct d as [|x d]; [discriminate|].
    destruct (dict_remove k (x :: d)); cbn [map] in *; [|lia].
    change (length (join (py ", ") [])) with 0%nat in IH. lia.
Qed.

Lemma size_remove_all_entries ev : forall d,
  NoDup (ev.*1) ->
  (forall k v, (k, v) ∈ ev -> dict_get k d = Some v) ->
  serialized_size (remove_all ev d) + sum_text ev + 6 * len ev
  <= serialized_size d.
Proof.
  induction ev as [|[k v] ev IH]; intros d Hnd Hget.
  - unfold remove_all, sum_text, len. cbn [foldl foldr length]. lia.
  - rewrite fmap_cons in Hnd. apply NoDup_cons in Hnd as [Hk Hnd].
    change (remove_all ((k, v) :: ev) d) with (remove_all ev (dict_remove k d)).
    assert (serialized_size (remove_all ev (dict_remove k d)) + sum_text ev
            + 6 * len ev <= serialized_size (dict_remove k d)) as Hrest.
    { apply IH; [done|]. intros k' v' Hin.
      rewrite dict_get_remove_ne; [apply Hget; by right|].
      intros ->. apply Hk. apply list_elem_of_fmap. by exists (k, v'). }
    pose proof (join_remove_length_entry k v d (Hget k v ltac:(left))) as Hone.
    unfold serialized_size, dict_str, len in *.
    rewrite !length_app in *. cbn [sum_text foldr snd length] in *.
    fold (sum_text ev) in *. unfold len. lia.
Qed.

(** X1: the mapping returned holds entries of the input only, unchanged
    and in their original relative order, with distinct keys. *)
Theorem enforce_keeps_order w a d :
  heap w !! a = Some d -> dict_wf d ->
  exists a' w' r,
    _enforce_site_data_limit a w = (inr a', w') /\ heap w' !! a' = Some r
    /\ r `sublist_of` d /\ dict_wf r.
Proof.
  intros Hd Hwf. eexists _, _, (trim d).
  split; [by apply enforce_run|]. split; [apply lookup_insert_eq|].
  split; [by apply trim_sublist | by apply remove_all_wf].
Qed.

(** X2: the running total over-estimates: each deletion frees at least six
    characters more than the length of the text that is subtracted. *)
Theorem enforce_frees_more_than_counted w a d :
  heap w !! a = Some d -> dict_wf d ->
  exists a' w' ev r,
    _enforce_site_data_limit a w = (inr a', w') /\ heap w' !! a' = Some r
    /\ log w' = log w ++ del_events a' ev
    /\ serialized_size r + sum_text ev + 6 * len ev <= serialized_size d.
Proof.
  intros Hd Hwf. eexists _, _, (evictions d), (trim d).
  split; [by apply enforce_run|]. split; [apply lookup_insert_eq|].
  split; [done|]. apply size_remove_all_entries; [by apply evictions_keys|].
  intros k v Hin. apply dict_get_elem; [done|]. by apply evictions_sub.
Qed.

(** X3: when the serialization without any text is already over the
    budget, the enforcer deletes every entry and returns an empty
    mapping, whatever the size of the single entries. *)
Theorem enforce_empties_when_overhead_exceeds w a d :
  heap w !! a = Some d -> dict_wf d ->
  MAX_TEXT_LENGTH < serialized_size d - sum_text d ->
  exists a' w',
    _enforce_site_data_limit a w = (inr a', w') /\ heap w' !! a' = Some []
    /\ log w' = log w ++ del_events a' (sorted_by_len_desc d).
Proof.
  intros Hd Hwf Hover. pose proof (sum_text_nonneg d).
  assert (evictions d = sorted_by_len_desc d) as Hev.
  { unfold evictions. rewrite (proj2 (Z.ltb_lt _ _)) by lia.
    apply evicted_all. by rewrite sum_text_sorted. }
  assert (trim d = []) as Hr.
  { unfold trim. rewrite Hev. apply remove_all_exhausted; [done|].
    apply sorted_by_len_desc_perm. }
  eexists _, _. split; [by apply enforce_run|].
  rewrite Hr, Hev. split; [apply lookup_insert_eq | done].
Qed.

(** X4: the enforcer is idempotent: run on the mapping it returned, it
    returns a copy of it and deletes nothing. *)
Theorem enforce_idempotent w a d a' w' :
  heap w !! a = Some d -> dict_wf d ->
  _enforce_site_data_limit a w = (inr a', w') ->
  exists r a'' w'',
    heap w' !! a' = Some r
    /\ _enforce_site_data_limit a' w' = (inr a'', w'')
    /\ heap w'' !! a'' = Some r /\ log w'' = log w'.
Proof.
  intros Hd Hwf Hrun. rewrite (enforce_run _ _ _ Hd Hwf) in Hrun.
  injection Hrun as <- <-.
  set (w' := World _ _ _).
  assert (heap w' !! fresh (dom (heap w)) = Some (trim d)) as Hr
    by apply lookup_insert_eq.
  assert (dict_wf (trim d)) as Hwf' by by apply remove_all_wf.
  assert (evictions (trim d) = []) as Hev.
  { unfold evictions. destruct (trim_fits_or_empty d Hwf) as [Hfit| ->].
    - by rewrite (proj2 (Z.ltb_ge _ _)).
    - by destruct (MAX_TEXT_LENGTH <? _). }
  assert (trim (trim d) = trim d) as Htt.
  { unfold trim at 1. by rewrite Hev. }
  eexists (trim d), _, _. split; [done|].
  rewrite (enforce_run _ _ _ Hr Hwf'), Htt, Hev.
  split; [reflexivity|]. split; [apply lookup_insert_eq|].
  cbn [log]. by rewrite app_nil_r.
Qed.

(** X5: the mapping returned equals the input exactly when the input is
    within the budget or empty. *)
Theorem enforce_unchanged_iff w a d :
  heap w !! a = Some d -> dict_wf d ->
  exists a' w' r,
    _enforce_site_data_limit a w = (inr a', w') /\ heap w' !! a' = Some r
    /\ (r = d <-> serialized_size d <= MAX_TEXT_LENGTH \/ d = []).
Proof.
  intros Hd Hwf. eexists _, _, (trim d).
  split; [by apply enforce_run|]. split; [apply lookup_insert_eq|].
  assert (evictions d ++ trim d ≡ₚ d) as Hpart.
  { apply remove_all_partition;
      [done | by apply evictions_keys | apply evictions_sub]. }
  apply Permutation_length in Hpart. rewrite length_app in Hpart.
  unfold trim, evictions in *.
  destruct (MAX_TEXT_LENGTH <? serialized_size d) eqn:E.
  - apply Z.ltb_lt in E. split.
    + intros Heq. right. rewrite Heq in Hpart.
      destruct d as [|x d]; [done|]. exfalso.
      pose proof (Permutation_length (sorted_by_len_desc_perm (x :: d))) as Hl.
      destruct (sorted_by_len_desc (x :: d)) as [|[url text] rest];
        [done|].
      cbn [evicted] in Hpart. rewrite (proj2 (Z.leb_gt _ _)) in Hpart by lia.
      simpl in Hpart. lia.
    + intros [Hfit| ->]; [lia | done].
  - apply Z.ltb_ge in E. split; [by left | done].
Qed.

(** X6: a corpus of a single entry that is over the budget comes back
    empty: the entry is deleted whole, never cut. *)
Theorem enforce_single_entry_over_budget w a url text :
  heap w !! a = Some [(url, text)] ->
  MAX_TEXT_LENGTH < serialized_size [(url, text)] ->
  exists a' w',
    _enforce_site_data_limit a w = (inr a', w') /\ heap w' !! a' = Some []
    /\ log w' = log w ++ [EvDel a' url text].
Proof.
  intros Hd Hover.
  assert (dict_wf [(url, text)]) as Hwf.
  { unfold dict_wf. cbn. apply NoDup_singleton. }
  eexists _, _. split; [by apply enforce_run|].
  unfold trim, evictions. rewrite (proj2 (Z.ltb_lt _ _)) by done.
  cbn [sorted_by_len_desc insert_desc evicted].
  rewrite (proj2 (Z.leb_gt _ _)) by done.
  cbn [remove_all foldl dict_remove fst]. rewrite decide_True by done.
  split; [apply lookup_insert_eq | done].
Qed.

(** ** Further properties of the handlers *)

(** Decoding fails with [UnicodeDecodeError] only; a decoded character
    comes from one to four bytes. *)
Lemma decode_utf8_spec n : forall bs,
  (length bs <= n)%nat ->
  match decode_utf8 bs with
  | inr q => (length q <= length bs <= 4 * length q)%nat
  | inl e => e = UnicodeDecodeError
  end.
Proof.
  induction n as [|n IH]; intros bs Hn.
  - destruct bs; [simpl; lia | simpl in Hn; lia].
  - destruct bs as [|b0 r0]; [simpl; lia|].
    cbn [decode_utf8]. cbn [length] in Hn.
    repeat case_match; simplify_eq; try done;
      cbn [length] in *;
      match goal with
      | H : decode_utf8 ?r = _ |- _ =>
        let HI := fresh in
        pose proof (IH r) as HI; rewrite H in HI;
        first [apply HI; lia | specialize (HI ltac:(lia)); lia]
      end.
Qed.

Lemma decode_utf8_error bs e : decode_utf8 bs = inl e -> e = UnicodeDecodeError.
Proof.
  intros H. pose proof (decode_utf8_spec (length bs) bs (Nat.le_refl _)) as Hs.
  by rewrite H in Hs.
Qed.


Lemma keeps_refl w : keeps w w.
Proof. by split. Qed.

Lemma keeps_trans w1 w2 w3 : keeps w1 w2 -> keeps w2 w3 -> keeps w1 w3.
Proof.
  intros [H12 S12] [H23 S23]. split; [|congruence].
  intros b Hb. rewrite <- (H12 b Hb). apply H23. by rewrite (H12 b Hb).
Qed.

Lemma bind_keeps {A B} (m : M A) (f : A -> M B) w :
  keeps w (m w).2 -> (forall x w1, keeps w1 (f x w1).2) ->
  keeps w ((m ≫= f) w).2.
Proof.
  intros Hm Hf. unfold mbind, M_bind.
  destruct (m w) as [[e|x] w1]; [done|].
  eapply keeps_trans; [exact Hm | apply Hf].
Qed.

Lemma deref_keeps a w : keeps w (deref a w).2.
Proof. unfold deref. destruct (heap w !! a); apply keeps_refl. Qed.

Lemma str_dict_keeps a w : keeps w (str_dict a w).2.
Proof.
  unfold str_dict. apply bind_keeps; [apply deref_keeps|].
  intros; apply keeps_refl.
Qed.

Lemma enforce_keeps a w : keeps w (_enforce_site_data_limit a w).2.
Proof.
  split; [intros b Hb; by apply enforce_frame|].
  destruct (heap w !! a) as [d|] eqn:Hd.
  - apply (enforce_frame a a w). by rewrite Hd.
  - unfold _enforce_site_data_limit.
    rewrite (bind_raise _ _ w DanglingReference w); [done|].
    unfold dict_copy. by rewrite Hd.
Qed.

Lemma ask_keeps body w : keeps w (ask_question body w).2.
Proof.
  unfold ask_question. apply bind_keeps; [apply keeps_refl|].
  intros question w1. destruct (500 <? len question); [apply keeps_refl|].
  apply bind_keeps; [apply keeps_refl|]. intros site_data w2.
  apply bind_keeps; [apply enforce_keeps|]. intros a' w3.
  apply bind_keeps; [apply str_dict_keeps|]. intros s w4.
  apply bind_keeps; [by split|]. intros response w5.
  apply bind_keeps.
  { unfold first_choice. destruct (choices response); apply keeps_refl. }
  intros answer w6. destruct (truthy (refusal answer)); [apply keeps_refl|].
  apply bind_keeps.
  { unfold usage_to_dict. destruct (usage response); apply keeps_refl. }
  intros u w7. apply bind_keeps; [|intros; apply keeps_refl].
  unfold dict_keys. apply bind_keeps; [apply deref_keeps|].
  intros; apply keeps_refl.
Qed.

Lemma ask_many_keeps bodies : forall w, keeps w (ask_many bodies w).
Proof.
  induction bodies as [|body bodies IH]; intros w; [apply keeps_refl|].
  eapply keeps_trans; [apply (ask_keeps body w) | apply IH].
Qed.

Lemma ask_success_valid body w resp w' :
  ask_question body w = (inr resp, w') ->
  exists q, decode_utf8 body = inr q /\ len q <= 500.
Proof.
  intros Hrun. destruct (decode_utf8 body) as [e|q] eqn:Hq.
  { unfold ask_question in Hrun.
    rewrite (bind_raise _ _ w e w) in Hrun; [done|].
    unfold lift. by rewrite Hq. }
  exists q. split; [done|].
  destruct (Z.lt_ge_cases 500 (len q)) as [Hlong|Hlen]; [|done].
  by rewrite (ask_too_long _ _ _ Hq Hlong) in Hrun.
Qed.

(** X7: after startup, [/source_info] returns the crawler's mapping, and
    keeps returning it after any sequence of [/ask] requests, whatever
    their outcomes; when the crawler raises, startup raises the same
    exception and assigns nothing. *)
Theorem source_info_after_startup_and_asks crawl_site bodies w :
  (forall d, crawl_site WEBSITE = inr d ->
     (lifespan crawl_site w).1 = inr tt
     /\ exists a,
          get_source (ask_many bodies (lifespan crawl_site w).2)
          = (inr a, ask_many bodies (lifespan crawl_site w).2)
          /\ heap (ask_many bodies (lifespan crawl_site w).2) !! a = Some d)
  /\ (forall e, crawl_site WEBSITE = inl e ->
        lifespan crawl_site w = (inl e, w)).
Proof.
  split.
  - intros d Hd. unfold lifespan, lift, dict_new, set_app_state_site_data.
    unfold mbind, M_bind. rewrite Hd. cbn [fst snd]. split; [done|].
    set (a := fresh (dom (heap w))).
    set (w1 := World _ a _).
    destruct (ask_many_keeps bodies w1) as [Hheap Hsite].
    exists a. unfold get_source, get_app_state_site_data. rewrite Hsite.
    split; [done|]. rewrite Hheap; unfold w1; cbn [heap set_heap];
      by rewrite lookup_insert_eq.
  - intros e He. unfold lifespan, lift, mbind, M_bind. by rewrite He.
Qed.

(** X8: the only HTTP errors the [/ask] handler raises are the two of the
    source, both with status 400: every other failure (undecodable body,
    failing LLM call, reply without choices or without usage) is not an
    [HTTPException]. *)
Theorem ask_http_errors body w d status detail :
  heap w !! app_state_site_data w = Some d -> dict_wf d ->
  (ask_question body w).1 = inl (HTTPException status detail) ->
  status = 400
  /\ (HTTPException status detail = question_too_long
      \/ HTTPException status detail = refused).
Proof.
  intros Hd Hwf Herr.
  destruct (decode_utf8 body) as [e|q] eqn:Hq.
  { apply decode_utf8_error in Hq as He. subst e.
    unfold ask_question in Herr.
    rewrite (bind_raise _ _ w UnicodeDecodeError w) in Herr; [done|].
    unfold lift. by rewrite Hq. }
  destruct (Z.lt_ge_cases 500 (len q)) as [Hlong|Hlen].
  { rewrite (ask_too_long _ _ _ Hq Hlong) in Herr.
    injection Herr as <- <-. split; [done | by left]. }
  rewrite (ask_run _ _ _ _ Hq Hlen Hd Hwf) in Herr. cbn [fst] in Herr.
  unfold answer_of in Herr.
  destruct (client_parse _ _) as [what|response]; [done|].
  destruct (choices response) as [|answer rest]; [done|].
  destruct (truthy (refusal answer)).
  - injection Herr as <- <-. split; [done | by right].
  - by destruct (usage response).
Qed.

(** X9: for a question that passed validation and a reply of the LLM, the
    handler succeeds exactly when the reply has a first choice that is not
    a refusal and carries usage data; the response then echoes the
    question, takes the answer from the first choice and the token counts
    from the usage data (null for a missing key), and lists the keys of
    the mapping sent. *)
Theorem ask_success_iff body q w d reply r :
  decode_utf8 body = inr q -> len q <= 500 ->
  heap w !! app_state_site_data w = Some d -> dict_wf d ->
  client_parse "gpt-4o-mini" (ask_messages (trim d) q) = inr reply ->
  ((ask_question body w).1 = inr r
   <-> exists m rest u,
         choices reply = m :: rest /\ truthy (refusal m) = false
         /\ usage reply = Some u
         /\ r = Response q (msg_content m) (u !! "prompt_tokens")
                  (u !! "completion_tokens") (trim d).*1).
Proof.
  intros Hq Hlen Hd Hwf Hreply.
  rewrite (ask_run _ _ _ _ Hq Hlen Hd Hwf), Hreply. cbn [fst answer_of].
  split.
  - destruct (choices reply) as [|m rest]; [done|].
    destruct (truthy (refusal m)) eqn:Hflag; [done|].
    destruct (usage reply) as [u|]; [|done].
    intros [= <-]. by exists m, rest, u.
  - intros (m & rest & u & -> & -> & -> & ->). done.
Qed.


(** X11: a body that is not valid UTF-8 makes the handler raise
    [UnicodeDecodeError] before anything else happens: no copy of the
    corpus, no request to the LLM. *)
Theorem ask_invalid_utf8 body e w :
  decode_utf8 body = inl e ->
  ask_question body w = (inl UnicodeDecodeError, w).
Proof.
  intros Hq. apply decode_utf8_error in Hq as He. subst e.
  unfold ask_question. apply bind_raise. unfold lift. by rewrite Hq.
Qed.

(** X12: on success, [sources] lists keys of the corpus without
    repetition and in the order the corpus has them. *)
Theorem sources_ordered_distinct body w d resp w' :
  heap w !! app_state_site_data w = Some d -> dict_wf d ->
  ask_question body w = (inr resp, w') ->
  sources resp `sublist_of` d.*1 /\ NoDup (sources resp).
Proof.
  intros Hd Hwf Hrun.
  destruct (ask_success_valid _ _ _ _ Hrun) as (q & Hq & Hlen).
  rewrite (ask_run _ _ _ _ Hq Hlen Hd Hwf) in Hrun.
  injection Hrun as Hans _.
  assert (sources resp = (trim d).*1) as ->.
  { unfold answer_of in Hans.
    destruct (client_parse _ _) as [what|response]; [done|].
    destruct (choices response) as [|answer rest]; [done|].
    destruct (truthy (refusal answer)); [done|].
    destruct (usage response); [|done]. by injection Hans as <-. }
  split; [by apply fmap_sublist, trim_sublist | by apply remove_all_wf].
Qed.

(** X14: when the corpus is within the budget, a successful answer lists
    every key of the corpus, in the corpus's order. *)
Theorem sources_all_when_within_budget body w d resp w' :
  heap w !! app_state_site_data w = Some d -> dict_wf d ->
  serialized_size d <= MAX_TEXT_LENGTH ->
  ask_question body w = (inr resp, w') ->
  sources resp = d.*1.
Proof.
  intros Hd Hwf Hfit Hrun.
  destruct (ask_success_valid _ _ _ _ Hrun) as (q & Hq & Hlen).
  rewrite (ask_run _ _ _ _ Hq Hlen Hd Hwf) in Hrun.
  injection Hrun as Hans _.
  assert (trim d = d) as Htrim.
  { unfold trim, evictions. by rewrite (proj2 (Z.ltb_ge _ _)). }
  rewrite Htrim in Hans. unfold answer_of in Hans.
  destruct (client_parse _ _) as [what|response]; [done|].
  destruct (choices response) as [|answer rest]; [done|].
  destruct (truthy (refusal answer)); [done|].
  destruct (usage response); [|done]. by injection Hans as <-.
Qed.

(** X15: the user message of the request sent to the LLM is bounded: the
    budget (or 2 for an empty mapping), the question, the site name and
    233 characters of fixed text. *)
Theorem prompt_size_bound body q w d :
  decode_utf8 body = inr q -> len q <= 500 ->
  heap w !! app_state_site_data w = Some d -> dict_wf d ->
  exists user_content,
    log (ask_question body w).2
    = log (_enforce_site_data_limit (app_state_site_data w) w).2
      ++ [EvChat "gpt-4o-mini"
            [ChatMessage "system" system_prompt;
             ChatMessage "user" user_content]]
    /\ len user_content
       <= Z.max MAX_TEXT_LENGTH 2 + len q + len (str_option WEBSITE) + 233.
Proof.
  intros Hq Hlen Hd Hwf.
  eexists. rewrite (ask_run _ _ _ _ Hq Hlen Hd Hwf). split; [reflexivity|].
  assert (serialized_size (trim d) <= Z.max MAX_TEXT_LENGTH 2) as Hsize.
  { destruct (trim_fits_or_empty d Hwf) as [Hfit| ->]; [lia|].
    change (serialized_size []) with 2. lia. }
  unfold serialized_size, user_prompt, len in *. rewrite !length_app.
  repeat match goal with
  | |- context [length (py ?s)] =>
    let n := eval vm_compute in (length (py s)) in
    change (length (py s)) with n
  end.
  cbn [length]. lia.
Qed.

End Program.

(** ** Two budgets *)

Lemma evicted_budget_mono its : forall budget1 budget2 total,
  budget1 <= budget2 ->
  evicted budget2 its total `prefix_of` evicted budget1 its total.
Proof.
  induction its as [|[url text] rest IH]; intros b1 b2 total Hle; simpl;
    [done|].
  destruct (total <=? b2) eqn:E2; [apply prefix_nil|].
  apply Z.leb_gt in E2. rewrite (proj2 (Z.leb_gt total b1)) by lia.
  by apply prefix_cons, IH.
Qed.

(** X13: raising the budget never costs an entry: the deletions under the
    larger budget are an initial segment of those under the smaller one,
    and every entry kept under the smaller budget is kept under the
    larger one, in the same order. *)
Theorem raising_budget_keeps_more isprintable budget1 budget2 w a d :
  heap w !! a = Some d -> dict_wf d -> budget1 <= budget2 ->
  exists a1 w1 r1 ev1 a2 w2 r2 ev2,
    _enforce_site_data_limit isprintable budget1 a w = (inr a1, w1)
    /\ heap w1 !! a1 = Some r1 /\ log w1 = log w ++ del_events a1 ev1
    /\ _enforce_site_data_limit isprintable budget2 a w = (inr a2, w2)
    /\ heap w2 !! a2 = Some r2 /\ log w2 = log w ++ del_events a2 ev2
    /\ ev2 `prefix_of` ev1 /\ r1 `sublist_of` r2.
Proof.
  intros Hd Hwf Hle.
  eexists _, _, (trim isprintable budget1 d), (evictions isprintable budget1 d),
    _, _, (trim isprintable budget2 d), (evictions isprintable budget2 d).
  split; [by apply enforce_run|]. split; [apply lookup_insert_eq|].
  split; [done|]. split; [by apply enforce_run|].
  split; [apply lookup_insert_eq|]. split; [done|].
  assert (evictions isprintable budget2 d
          `prefix_of` evictions isprintable budget1 d) as Hpre.
  { unfold evictions.
    destruct (budget2 <? serialized_size isprintable d) eqn:E2;
      [|apply prefix_nil].
    apply Z.ltb_lt in E2. rewrite (proj2 (Z.ltb_lt _ _)) by lia.
    by apply evicted_budget_mono. }
  split; [done|]. unfold trim. rewrite !remove_all_filter by done.
  apply filter_sublist_impl. intros x Hx Hin. apply Hx.
  destruct Hpre as [k ->]. rewrite fmap_app. apply elem_of_app. by left.
Qed.

(** ** Concrete runs *)

Example repr_single_quote :
  repr isprintable_latin1 (py "it's") = [34%N] ++ py "it's" ++ [34%N].
Proof. reflexivity. Qed.

Example repr_both_quotes :
  repr isprintable_latin1 (py "a'b" ++ [34%N])
  = py "'a\'b" ++ [34%N] ++ py "'".
Proof. reflexivity. Qed.

Example repr_escapes :
  repr isprintable_latin1 [10%N; 233%N; 128%N; 8203%N]
  = py "'\n" ++ [233%N] ++ py "\x80\u200b'".
Proof. reflexivity. Qed.

Example dict_str_empty : dict_str isprintable_latin1 [] = py "{}".
Proof. reflexivity. Qed.

Example dict_str_two :
  dict_str isprintable_latin1 [(py "a", py "x"); (py "b", py "y")]
  = py "{'a': 'x', 'b': 'y'}".
Proof. reflexivity. Qed.

Example decode_euro : decode_utf8 [226; 130; 172; 65]%N = inr [8364; 65]%N.
Proof. reflexivity. Qed.

Example decode_overlong : decode_utf8 [192; 128]%N = inl UnicodeDecodeError.
Proof. reflexivity. Qed.

Example scenario_run :
  let r := _enforce_site_data_limit isprintable_latin1 120 0%nat scenario_world in
  r.1 = inr 1%nat
  /\ heap r.2 !! 1%nat = Some [(py "b", replicate 50 121%N)]
  /\ heap r.2 !! 0%nat = Some scenario_corpus
  /\ log r.2 = [EvDel 1%nat (py "a") (replicate 100 120%N)].
Proof. vm_compute. done. Qed.

Example scenario_size :
  serialized_size isprintable_latin1 scenario_corpus = 168.
Proof. reflexivity. Qed.

Example scenario_drops_longest :
  trim isprintable_latin1 120 scenario_corpus = [(py "b", replicate 50 121%N)].
Proof. reflexivity. Qed.

Example ties_evictions :
  evictions isprintable_latin1 38 ties_corpus
  = [(py "b", py "yyy"); (py "d", py "www"); (py "a", py "xx")].
Proof. reflexivity. Qed.

Lemma enforce_over_budget_fits_or_empty_witness :
  exists a' w' r,
    _enforce_site_data_limit isprintable_latin1 MAX_TEXT_LENGTH_source
      0%nat big_world = (inr a', w')
    /\ heap w' !! a' = Some r
    /\ (serialized_size isprintable_latin1 r <= MAX_TEXT_LENGTH_source
        \/ r = []).
Proof.
  apply (enforce_over_budget_fits_or_empty isprintable_latin1
           MAX_TEXT_LENGTH_source big_world 0%nat big_corpus).
  - reflexivity.
  - unfold dict_wf. compute_done.
  - vm_compute. reflexivity.
Defined.

Lemma enforce_within_budget_unchanged_witness :
  exists a' w',
    _enforce_site_data_limit isprintable_latin1 MAX_TEXT_LENGTH_source
      0%nat scenario_world = (inr a', w')
    /\ heap w' !! a' = Some scenario_corpus
    /\ a' ≠ 0%nat /\ log w' = log scenario_world.
Proof.
  apply (enforce_within_budget_unchanged isprintable_latin1
           MAX_TEXT_LENGTH_source scenario_world 0%nat scenario_corpus).
  - reflexivity.
  - vm_compute. discriminate.
Defined.

Lemma eviction_order_witness :
  exists a' w' ev r,
    _enforce_site_data_limit isprintable_latin1 38 0%nat ties_world
      = (inr a', w')
    /\ heap w' !! a' = Some r
    /\ log w' = log ties_world ++ del_events a' ev
    /\ ev ++ r ≡ₚ ties_corpus
    /\ StronglySorted (fun x y => len y.2 <= len x.2) ev
    /\ (forall x y, head ev = Some x -> y ∈ ties_corpus -> len y.2 <= len x.2)
    /\ (forall p e q, ev = p ++ e :: q ->
          38 < serialized_size isprintable_latin1 ties_corpus - sum_text p)
    /\ (serialized_size isprintable_latin1 ties_corpus - sum_text ev <= 38
        \/ r = []).
Proof.
  apply (eviction_order isprintable_latin1 38 ties_world 0%nat ties_corpus).
  - reflexivity.
  - unfold dict_wf. compute_done.
Defined.

Lemma enforce_deterministic_witness :
  exists a1' a2' w1' w2' r ev,
    _enforce_site_data_limit isprintable_latin1 38 0%nat ties_world
      = (inr a1', w1')
    /\ _enforce_site_data_limit isprintable_latin1 38 5%nat busy_world
      = (inr a2', w2')
    /\ heap w1' !! a1' = Some r /\ heap w2' !! a2' = Some r
    /\ log w1' = log ties_world ++ del_events a1' ev
    /\ log w2' = log busy_world ++ del_events a2' ev.
Proof.
  apply (enforce_deterministic isprintable_latin1 38 ties_world busy_world
           0%nat 5%nat ties_corpus).
  - reflexivity.
  - reflexivity.
  - unfold dict_wf. compute_done.
Defined.

Lemma enforce_input_unchanged_witness :
  heap (_enforce_site_data_limit isprintable_latin1 120 0%nat
          scenario_world).2 !! 0%nat
  = Some scenario_corpus.
Proof.
  destruct (enforce_input_unchanged isprintable_latin1 120 scenario_world 0%nat)
    as [H _].
  exact H.
Defined.

Lemma eviction_ties_in_insertion_order_witness :
  exists a' w' ev,
    _enforce_site_data_limit isprintable_latin1 38 0%nat ties_world
      = (inr a', w')
    /\ log w' = log ties_world ++ del_events a' ev
    /\ filter (fun e => item_key e = 3) ev
       `prefix_of` filter (fun e => item_key e = 3) ties_corpus.
Proof.
  apply (eviction_ties_in_insertion_order isprintable_latin1 38 ties_world
           0%nat ties_corpus 3).
  - reflexivity.
  - unfold dict_wf. compute_done.
Defined.

Lemma sources_are_keys_sent_witness :
  exists q a' w1 sent,
    decode_utf8 (py "hi") = inr q
    /\ _enforce_site_data_limit isprintable_latin1 120
         (app_state_site_data scenario_world) scenario_world = (inr a', w1)
    /\ heap w1 !! a' = Some sent
    /\ log (ask_question isprintable_latin1 120 None llm_answers (py "hi")
              scenario_world).2
       = log w1 ++ [EvChat "gpt-4o-mini"
                      (ask_messages isprintable_latin1 None sent q)]
    /\ sources scenario_response = sent.*1
    /\ sources scenario_response ⊆ scenario_corpus.*1.
Proof.
  apply (sources_are_keys_sent isprintable_latin1 120 None llm_answers
           (py "hi") scenario_world scenario_corpus scenario_response).
  - reflexivity.
  - unfold dict_wf. compute_done.
  - vm_compute. reflexivity.
Defined.

Lemma refusal_iff_flag_witness :
  ((ask_question isprintable_latin1 120 None llm_refuses (py "hi")
      scenario_world).1 = inl refused
   <-> truthy (Some (py "no")) = true)
  /\ (truthy (Some (py "no")) = true ->
      forall r, (ask_question isprintable_latin1 120 None llm_refuses (py "hi")
                   scenario_world).1 ≠ inr r).
Proof.
  apply (refusal_iff_flag isprintable_latin1 120 None llm_refuses (py "hi")
           (py "hi") scenario_world scenario_corpus
           (Message (Some (py "no")) None) [] None).
  - reflexivity.
  - vm_compute. discriminate.
  - reflexivity.
  - unfold dict_wf. compute_done.
  - reflexivity.
Defined.

Lemma question_length_validation_witness :
  (ask_question isprintable_latin1 120 None llm_answers (replicate 500 97%N)
     scenario_world).1 ≠ inl question_too_long
  /\ (ask_question isprintable_latin1 120 None llm_answers (replicate 501 97%N)
        scenario_world).1 = inl question_too_long.
Proof.
  split.
  - apply (question_length_validation isprintable_latin1 120 None llm_answers
             (replicate 500 97%N) (replicate 500 97%N) scenario_world
             scenario_corpus);
      [vm_compute; reflexivity | reflexivity | unfold dict_wf; compute_done
      | vm_compute; reflexivity].
  - apply (question_length_validation isprintable_latin1 120 None llm_answers
             (replicate 501 97%N) (replicate 501 97%N) scenario_world
             scenario_corpus);
      [vm_compute; reflexivity | reflexivity | unfold dict_wf; compute_done
      | vm_compute; reflexivity].
Defined.

Lemma empty_question_accepted_witness :
  exists r,
    (ask_question isprintable_latin1 120 None llm_answers [] scenario_world).1
    = inr r /\ user_question r = [].
Proof.
  destruct (empty_question_accepted isprintable_latin1 120 None llm_answers
              scenario_world scenario_corpus) as (_ & _ & H & _).
  - reflexivity.
  - unfold dict_wf. compute_done.
  - apply (H (Message None (Some (py "ok"))) []
             {[ "prompt_tokens" := 7; "completion_tokens" := 3 ]});
      reflexivity.
Defined.

(** ** Concrete runs of the further properties *)

Lemma enforce_keeps_order_witness :
  exists a' w' r,
    _enforce_site_data_limit isprintable_latin1 38 0%nat ties_world
      = (inr a', w')
    /\ heap w' !! a' = Some r
    /\ r `sublist_of` ties_corpus /\ dict_wf r.
Proof.
  apply (enforce_keeps_order isprintable_latin1 38 ties_world 0%nat ties_corpus).
  - reflexivity.
  - unfold dict_wf. compute_done.
Defined.

Lemma enforce_frees_more_than_counted_witness :
  exists a' w' ev r,
    _enforce_site_data_limit isprintable_latin1 38 0%nat ties_world
      = (inr a', w')
    /\ heap w' !! a' = Some r
    /\ log w' = log ties_world ++ del_events a' ev
    /\ serialized_size isprintable_latin1 r + sum_text ev + 6 * len ev
       <= serialized_size isprintable_latin1 ties_corpus.
Proof.
  apply (enforce_frees_more_than_counted isprintable_latin1 38 ties_world
           0%nat ties_corpus).
  - reflexivity.
  - unfold dict_wf. compute_done.
Defined.

Lemma enforce_empties_when_overhead_exceeds_witness :
  exists a' w',
    _enforce_site_data_limit isprintable_latin1 50 0%nat long_urls_world
      = (inr a', w')
    /\ heap w' !! a' = Some []
    /\ log w' = log long_urls_world
                ++ del_events a' (sorted_by_len_desc long_urls_corpus).
Proof.
  apply (enforce_empties_when_overhead_exceeds isprintable_latin1 50
           long_urls_world 0%nat long_urls_corpus).
  - reflexivity.
  - unfold dict_wf. compute_done.
  - vm_compute. reflexivity.
Defined.

Lemma enforce_idempotent_witness :
  exists r a'' w'',
    heap (_enforce_site_data_limit isprintable_latin1 120 0%nat
            scenario_world).2 !! 1%nat = Some r
    /\ _enforce_site_data_limit isprintable_latin1 120 1%nat
         (_enforce_site_data_limit isprintable_latin1 120 0%nat
            scenario_world).2 = (inr a'', w'')
    /\ heap w'' !! a'' = Some r
    /\ log w''
       = log (_enforce_site_data_limit isprintable_latin1 120 0%nat
                scenario_world).2.
Proof.
  apply (enforce_idempotent isprintable_latin1 120 scenario_world 0%nat
           scenario_corpus).
  - reflexivity.
  - unfold dict_wf. compute_done.
  - vm_compute. reflexivity.
Defined.

Lemma enforce_unchanged_iff_witness :
  exists a' w' r,
    _enforce_site_data_limit isprintable_latin1 120 0%nat scenario_world
      = (inr a', w')
    /\ heap w' !! a' = Some r
    /\ (r = scenario_corpus
        <-> serialized_size isprintable_latin1 scenario_corpus <= 120
            \/ scenario_corpus = []).
Proof.
  apply (enforce_unchanged_iff isprintable_latin1 120 scenario_world 0%nat
           scenario_corpus).
  - reflexivity.
  - unfold dict_wf. compute_done.
Defined.

Lemma enforce_single_entry_over_budget_witness :
  exists a' w',
    _enforce_site_data_limit isprintable_latin1 50 0%nat single_world
      = (inr a', w')
    /\ heap w' !! a' = Some []
    /\ log w' = log single_world
                ++ [EvDel a' (py "a") (replicate 100 120%N)].
Proof.
  apply (enforce_single_entry_over_budget isprintable_latin1 50 single_world
           0%nat (py "a") (replicate 100 120%N)).
  - reflexivity.
  - vm_compute. reflexivity.
Defined.

Lemma source_info_after_startup_and_asks_witness :
  (lifespan None crawler_ok long_urls_world).1 = inr tt
  /\ exists a,
       get_source
         (ask_many isprintable_latin1 120 None llm_refuses
            [py "hi"; [255%N]] (lifespan None crawler_ok long_urls_world).2)
       = (inr a,
          ask_many isprintable_latin1 120 None llm_refuses
            [py "hi"; [255%N]] (lifespan None crawler_ok long_urls_world).2)
       /\ heap (ask_many isprintable_latin1 120 None llm_refuses
                  [py "hi"; [255%N]]
                  (lifespan None crawler_ok long_urls_world).2) !! a
          = Some scenario_corpus.
Proof.
  apply (source_info_after_startup_and_asks isprintable_latin1 120 None
           llm_refuses crawler_ok [py "hi"; [255%N]] long_urls_world).
  reflexivity.
Defined.

Lemma ask_http_errors_witness :
  400 = 400
  /\ (HTTPException 400
        "The AI refused to answer the question based on the provided data."
      = question_too_long
      \/ HTTPException 400
           "The AI refused to answer the question based on the provided data."
         = refused).
Proof.
  apply (ask_http_errors isprintable_latin1 120 None llm_refuses (py "hi")
           scenario_world scenario_corpus).
  - reflexivity.
  - unfold dict_wf. compute_done.
  - vm_compute. reflexivity.
Defined.

Lemma ask_success_iff_witness :
  (ask_question isprintable_latin1 120 None llm_answers (py "hi")
     scenario_world).1 = inr scenario_response
  <-> exists m rest u,
        choices (Completion [Message None (Some (py "ok"))]
                   (Some {[ "prompt_tokens" := 7; "completion_tokens" := 3 ]}))
        = m :: rest
        /\ truthy (refusal m) = false
        /\ usage (Completion [Message None (Some (py "ok"))]
                    (Some {[ "prompt_tokens" := 7; "completion_tokens" := 3 ]}))
           = Some u
        /\ scenario_response
           = Response (py "hi") (msg_content m) (u !! "prompt_tokens")
               (u !! "completion_tokens")
               (trim isprintable_latin1 120 scenario_corpus).*1.
Proof.
  apply (ask_success_iff isprintable_latin1 120 None llm_answers (py "hi")
           (py "hi") scenario_world scenario_corpus).
  - reflexivity.
  - vm_compute. discriminate.
  - reflexivity.
  - unfold dict_wf. compute_done.
  - reflexivity.
Defined.


Lemma ask_invalid_utf8_witness :
  ask_question isprintable_latin1 120 None llm_answers [255%N] scenario_world
  = (inl UnicodeDecodeError, scenario_world).
Proof.
  apply (ask_invalid_utf8 isprintable_latin1 120 None llm_answers [255%N]
           UnicodeDecodeError scenario_world).
  reflexivity.
Defined.

Lemma sources_ordered_distinct_witness :
  sources scenario_response `sublist_of` scenario_corpus.*1
  /\ NoDup (sources scenario_response).
Proof.
  apply (sources_ordered_distinct isprintable_latin1 120 None llm_answers
           (py "hi") scenario_world scenario_corpus scenario_response
           (ask_question isprintable_latin1 120 None llm_answers (py "hi")
              scenario_world).2).
  - reflexivity.
  - unfold dict_wf. compute_done.
  - vm_compute. reflexivity.
Defined.

Lemma raising_budget_keeps_more_witness :
  exists a1 w1 r1 ev1 a2 w2 r2 ev2,
    _enforce_site_data_limit isprintable_latin1 38 0%nat ties_world
      = (inr a1, w1)
    /\ heap w1 !! a1 = Some r1
    /\ log w1 = log ties_world ++ del_events a1 ev1
    /\ _enforce_site_data_limit isprintable_latin1 40 0%nat ties_world
       = (inr a2, w2)
    /\ heap w2 !! a2 = Some r2
    /\ log w2 = log ties_world ++ del_events a2 ev2
    /\ ev2 `prefix_of` ev1 /\ r1 `sublist_of` r2.
Proof.
  apply (raising_budget_keeps_more isprintable_latin1 38 40 ties_world 0%nat
           ties_corpus).
  - reflexivity.
  - unfold dict_wf. compute_done.
  - vm_compute. discriminate.
Defined.

Lemma sources_all_when_within_budget_witness :
  sources (Response (py "hi") (Some (py "ok")) (Some 7) (Some 3)
             [py "a"; py "b"])
  = scenario_corpus.*1.
Proof.
  apply (sources_all_when_within_budget isprintable_latin1
           MAX_TEXT_LENGTH_source None llm_answers (py "hi") scenario_world
           scenario_corpus _
           (ask_question isprintable_latin1 MAX_TEXT_LENGTH_source None
              llm_answers (py "hi") scenario_world).2).
  - reflexivity.
  - unfold dict_wf. compute_done.
  - vm_compute. discriminate.
  - vm_compute. reflexivity.
Defined.

Lemma prompt_size_bound_witness :
  exists user_content,
    log (ask_question isprintable_latin1 120 None llm_answers (py "hi")
           scenario_world).2
    = log (_enforce_site_data_limit isprintable_latin1 120
             (app_state_site_data scenario_world) scenario_world).2
      ++ [EvChat "gpt-4o-mini"
            [ChatMessage "system" system_prompt;
             ChatMessage "user" user_content]]
    /\ len user_content
       <= Z.max 120 2 + len (py "hi") + len (str_option None) + 233.
Proof.
  apply (prompt_size_bound isprintable_latin1 120 None llm_answers (py "hi")
           (py "hi") scenario_world scenario_corpus).
  - reflexivity.
  - vm_compute. discriminate.
  - reflexivity.
  - unfold dict_wf. compute_done.
Defined.
